(** * calsplit.py: sorting and size-bounded splitting of an ICS calendar

    A shallow embedding of [src/calsplit.py].  The program reads one
    calendar file, collects its VEVENT components, sorts them by a date
    key and writes them back in batches, each batch being a complete
    calendar of its own.

    The embedding follows the source function by function:
    [get_event_date], [create_calendar_with_events], [split_ics_file] and
    [main].  The icalendar library (parser [Calendar.from_ical],
    serializer [to_ical], equality of components) is not part of the
    repository, and whether a file can be written depends on the file
    system: the development is parametric in all four, and a small
    reference parser, serializer and equality for unfolded, parameter-free
    content lines is given to run the program on concrete files. *)

From Stdlib Require Import ZArith QArith Qpower String Ascii List Sorted Permutation.
From Stdlib Require Import SpecFloat.
From stdpp Require Import base option list gmap strings pretty.

Set Warnings "-register-all".

Local Open Scope string_scope.
Local Open Scope Z_scope.
Local Open Scope list_scope.
Local Open Scope stdpp_scope.

(** ** Python values used by the program *)

(** Exceptions the program can meet.  None is caught inside
    [split_ics_file]: each one ends the run. *)
Inductive exn : Type :=
  | FileNotFoundError
  | ValueError          (* raised by the parser on a malformed document,
                           and by [int] on [nan] *)
  | AttributeError      (* [.dt] on a value that has none *)
  | TypeError           (* [datetime.combine] on something that is no date *)
  | OverflowError       (* [int] on an infinity *)
  | OSError.            (* [open] or [write] on a file that cannot be written *)

Inductive result (A : Type) : Type :=
  | Ok (a : A)
  | Raise (e : exn).
Arguments Ok {A} a.
Arguments Raise {A} e.

#[global] Instance result_ret : MRet result := fun A a => Ok a.

#[global] Instance result_bind : MBind result := fun A B k m =>
  match m with
  | Ok a => k a
  | Raise e => Raise e
  end.

(** [datetime.date], [datetime.time] and [datetime.datetime]. *)
Record date : Type := mk_date { year : Z; month : Z; day : Z }.

Record time : Type :=
  mk_time { hour : Z; minute : Z; second : Z; microsecond : Z }.

(** [tzinfo] is [None] for a naive value, otherwise the UTC offset in
    minutes. *)
Record datetime : Type :=
  mk_datetime { dt_date : date; dt_time : time; tzinfo : option Z }.

(** [datetime.min.time()] and [datetime.min]. *)
Definition time_min : time := mk_time 0 0 0 0.
Definition datetime_min : datetime := mk_datetime (mk_date 1 1 1) time_min None.

(** [datetime.combine(d, t)] for a naive [t]. *)
Definition combine (d : date) (t : time) : datetime := mk_datetime d t None.

(** [dt.replace(tzinfo=None)]. *)
Definition replace_tzinfo_None (dt : datetime) : datetime :=
  mk_datetime (dt_date dt) (dt_time dt) None.

(** The payload [.dt] of a date-typed property ([vDDDTypes]): a date-time,
    a date, or one of the other shapes the library accepts there, of which
    a duration stands for all. *)
Inductive dt_value : Type :=
  | DtDatetime (dt : datetime)
  | DtDate (d : date)
  | DtTimedelta (seconds : Z).

(** A property value: free text, or a date-typed value with a payload. *)
Inductive PropValue : Type :=
  | vText (s : string)
  | vDDDTypes (dt : dt_value).

(** A component: its name, its properties (a case-folded dictionary whose
    keys are upper case) and its subcomponents, in document order. *)
Inductive Component : Type :=
  mkComponent {
    name : string;
    props : gmap string PropValue;
    subcomponents : list Component
  }.

#[global] Instance date_eq_dec : EqDecision date.
Proof. solve_decision. Defined.
#[global] Instance time_eq_dec : EqDecision time.
Proof. solve_decision. Defined.
#[global] Instance datetime_eq_dec : EqDecision datetime.
Proof. solve_decision. Defined.
#[global] Instance dt_value_eq_dec : EqDecision dt_value.
Proof. solve_decision. Defined.
#[global] Instance PropValue_eq_dec : EqDecision PropValue.
Proof. solve_decision. Defined.

(** ** Comparison of naive date-times

    Python compares two naive [datetime] values field by field, from the
    year down to the microsecond. *)
Definition lex (c : comparison) (k : comparison) : comparison :=
  match c with
  | Eq => k
  | _ => c
  end.

Definition datetime_compare (a b : datetime) : comparison :=
  lex (Z.compare (year (dt_date a)) (year (dt_date b)))
  (lex (Z.compare (month (dt_date a)) (month (dt_date b)))
  (lex (Z.compare (day (dt_date a)) (day (dt_date b)))
  (lex (Z.compare (hour (dt_time a)) (hour (dt_time b)))
  (lex (Z.compare (minute (dt_time a)) (minute (dt_time b)))
  (lex (Z.compare (second (dt_time a)) (second (dt_time b)))
       (Z.compare (microsecond (dt_time a)) (microsecond (dt_time b)))))))).

(** [a < b] *)
Definition datetime_ltb (a b : datetime) : bool :=
  match datetime_compare a b with
  | Lt => true
  | _ => false
  end.

(** What makes a three-way comparison that of a total preorder. *)
Record order_like {A : Type} (c : A -> A -> comparison) : Prop :=
  mk_order_like {
    c_opp : forall a b, c a b = CompOpp (c b a);
    c_eq_l : forall a b d, c a b = Eq -> c a d = c b d;
    c_lt_trans : forall a b d, c a b = Lt -> c b d = Lt -> c a d = Lt
  }.

(** The values a [datetime.date] and a [datetime.time] can take. *)
Definition valid_date (d : date) : Prop :=
  1 <= year d <= 9999 /\ 1 <= month d <= 12 /\ 1 <= day d <= 31.

Definition valid_time (t : time) : Prop :=
  0 <= hour t < 24 /\ 0 <= minute t < 60 /\ 0 <= second t < 60
  /\ 0 <= microsecond t < 1000000.

Definition valid_datetime (dt : datetime) : Prop :=
  valid_date (dt_date dt) /\ valid_time (dt_time dt).

(** ** [get_event_date] (lines 27-40) *)

Definition date_fields : list string := ["DTSTART"; "DTSTAMP"; "CREATED"].

(** [event[date_field].dt]: text values carry no [dt] attribute. *)
Definition dt_of (v : PropValue) : result dt_value :=
  match v with
  | vDDDTypes dt => Ok dt
  | vText _ => Raise AttributeError
  end.

(** The body of the [for] loop once the field is known to be present. *)
Definition date_of_field (v : PropValue) : result datetime :=
  dt ← dt_of v;
  match dt with
  | DtDatetime d =>
      match tzinfo d with
      | Some _ => Ok (replace_tzinfo_None d)
      | None => Ok d
      end
  | DtDate d => Ok (combine d time_min)
  | DtTimedelta _ => Raise TypeError
  end.

Fixpoint get_event_date_from (fields : list string) (event : Component)
  : result datetime :=
  match fields with
  | [] => Ok datetime_min
  | date_field :: rest =>
      match props event !! date_field with
      | Some v => date_of_field v
      | None => get_event_date_from rest event
      end
  end.

Definition get_event_date (event : Component) : result datetime :=
  get_event_date_from date_fields event.

(** ** Library operations on components *)

(** [Component.walk()]: the component itself, then the walk of each
    subcomponent, in order. *)
Fixpoint walk (c : Component) : list Component :=
  c :: flat_map walk (subcomponents c).

(** A reference model of [Component.__eq__]: same number of
    subcomponents, equal property dictionaries, and every subcomponent of
    the left one equal to some subcomponent of the right one.  Equality is
    by value, not by identity.  The program is modelled for any equality
    of the library; this one is used to run it on components whose
    properties are text. *)
Fixpoint component_eqb (a b : Component) : bool :=
  bool_decide (length (subcomponents a) = length (subcomponents b))
  && bool_decide (props a = props b)
  && forallb (fun x => existsb (component_eqb x) (subcomponents b))
             (subcomponents a).

(** [Component.add(attr, value)] on a component that has no [attr] yet
    (the only use the program makes of it). *)
Definition add (attr : string) (value : PropValue) (c : Component) : Component :=
  mkComponent (name c) (<[attr := value]> (props c)) (subcomponents c).

(** [Component.add_component(e)]. *)
Definition add_component (e : Component) (c : Component) : Component :=
  mkComponent (name c) (props c) (subcomponents c ++ [e]).

(** [Calendar()]: an empty VCALENDAR. *)
Definition Calendar : Component := mkComponent "VCALENDAR" ∅ [].

(** ** [events.sort(key=get_event_date)] (line 61)

    The keys are computed once, left to right; an exception raised by the
    key function ends the sort.  The list is then sorted on the keys with
    [<] only, and equal keys keep their order: each element goes behind
    the elements already placed whose key is not greater. *)
Fixpoint insert_keyed (x : datetime * Component)
  (sorted : list (datetime * Component)) : list (datetime * Component) :=
  match sorted with
  | [] => [x]
  | y :: rest =>
      if datetime_ltb (fst x) (fst y) then x :: sorted
      else y :: insert_keyed x rest
  end.

Definition sort_keyed (l : list (datetime * Component))
  : list (datetime * Component) :=
  foldl (fun acc x => insert_keyed x acc) [] l.

Fixpoint keys_of (events : list Component) : result (list datetime) :=
  match events with
  | [] => Ok []
  | e :: rest =>
      k ← get_event_date e;
      ks ← keys_of rest;
      Ok (k :: ks)
  end.

Definition sort_events (events : list Component) : result (list Component) :=
  keys ← keys_of events;
  Ok (map snd (sort_keyed (zip keys events))).

(** Orders used to state that the sort is a stable sort. *)

(** [x] may stand before [y]: the key of [y] is not below that of [x]. *)
Definition key_le (x y : datetime * Component) : Prop :=
  datetime_ltb (fst y) (fst x) = false.

(** The key of [x] compares equal to [k]. *)
Definition same_key (k : datetime) (x : datetime * Component) : bool :=
  match datetime_compare (fst x) k with
  | Eq => true
  | _ => false
  end.

(** The same on an event, through [get_event_date]. *)
Definition has_key (k : datetime) (e : Component) : bool :=
  match get_event_date e with
  | Ok k' => same_key k (k', e)
  | Raise _ => false
  end.

(** ** [os.path.splitext] (POSIX) *)

(** [p.rfind(c)]: the index of the last [c] in [p], or [-1]. *)
Fixpoint rfind_from (c : ascii) (p : string) (i : Z) (found : Z) : Z :=
  match p with
  | EmptyString => found
  | String a p' => rfind_from c p' (i + 1) (if Ascii.eqb a c then i else found)
  end.

Definition rfind (c : ascii) (p : string) : Z := rfind_from c p 0 (-1).

(** [p[i:j]] for [0 <= i <= j]. *)
Definition slice (p : string) (i j : Z) : string :=
  substring (Z.to_nat i) (Z.to_nat (j - i)) p.

(** The inner loop of [_splitext]: is there a character other than a dot
    in the file name before its last dot? *)
Fixpoint has_non_dot (s : string) : bool :=
  match s with
  | EmptyString => false
  | String a s' => if Ascii.eqb a "."%char then has_non_dot s' else true
  end.

Definition splitext (p : string) : string * string :=
  let sepIndex := rfind "/"%char p in
  let dotIndex := rfind "."%char p in
  if Z.ltb sepIndex dotIndex && has_non_dot (slice p (sepIndex + 1) dotIndex)
  then (slice p 0 dotIndex, slice p dotIndex (Z.of_nat (String.length p)))
  else (p, "").

(** ** The size limit (line 48)

    [max_size_mb] is the Python float that [main] reads from the command
    line, an IEEE 754 binary64 number: the three products are rounded to
    the nearest float, ties to even, and overflow to an infinity.  [int]
    truncates towards zero and raises on [nan] and on the infinities. *)
Definition fmul : spec_float -> spec_float -> spec_float := SFmul 53 1024.

(** The float of an integer, and the float nearest to the quotient of two
    floats. *)
Definition float_of_Z (n : Z) : spec_float := binary_normalize 53 1024 n 0 false.
Definition fdiv : spec_float -> spec_float -> spec_float := SFdiv 53 1024.

(** The float a decimal [n / 10^k] written with few digits denotes, as
    [float("0.0001")] for [1] and [10000]. *)
Definition float_of_ratio (n d : Z) : spec_float :=
  fdiv (float_of_Z n) (float_of_Z d).

(** The constants [1024] and [0.95] as floats. *)
Definition f1024 : spec_float := S754_finite false 4503599627370496 (-42).
Definition f095 : spec_float := S754_finite false 8556839292003942 (-53).

(** [int(x)] *)
Definition int_of_float (x : spec_float) : result Z :=
  match x with
  | S754_nan => Raise ValueError
  | S754_infinity _ => Raise OverflowError
  | S754_zero _ => Ok 0
  | S754_finite s m e =>
      let magnitude :=
        match e with
        | Zneg p => Z.shiftr (Zpos m) (Zpos p)
        | _ => Z.shiftl (Zpos m) e
        end in
      Ok (if s then - magnitude else magnitude)
  end.

(** The real number a finite float stands for ([0] for [nan] and the
    infinities, which stand for none). *)
Definition float_value (x : spec_float) : Q :=
  match x with
  | S754_finite s m e =>
      (if s then - inject_Z (Zpos m) else inject_Z (Zpos m)) * (2 ^ e)
  | _ => 0
  end%Q.

(** [max_size_mb * 1024 * 1024]: the configured limit in bytes. *)
Definition limit_float (max_size_mb : spec_float) : spec_float :=
  fmul (fmul max_size_mb f1024) f1024.

Definition limit_bytes (max_size_mb : spec_float) : Q :=
  float_value (limit_float max_size_mb).

(** [int(max_size_mb * 1024 * 1024 * 0.95)] *)
Definition max_size_of (max_size_mb : spec_float) : result Z :=
  int_of_float (fmul (limit_float max_size_mb) f095).

(** ** What a run leaves behind *)

(** A line printed on standard output.  The size is kept in bytes (the
    program prints it in megabytes with two decimals). *)
Inductive message : Type :=
  | NoEventsFound
  | Created (output_file : string) (n_events : nat) (size_bytes : nat).

(** A file written by the program: its path and the calendar whose
    serialization it holds. *)
Record out_file : Type := mk_out_file { out_path : string; out_cal : Component }.

(** The events of a written calendar. *)
Definition out_events (f : out_file) : list Component := subcomponents (out_cal f).

(** The state of the batching loop (lines 79-80 and the effects so far):
    the files written and the lines printed, and the exception that ended
    the loop, if one did. *)
Record loop_state : Type :=
  mk_loop_state {
    current_events : list Component;
    file_counter : nat;
    written : list out_file;
    stdout : list message;
    raised : option exn
  }.

(** The result of a run: the files written, in order, the lines printed,
    and how the call ended. *)
Record run : Type :=
  mk_run {
    run_written : list out_file;
    run_stdout : list message;
    outcome : result unit
  }.

(** ** [split_ics_file] (lines 42-122) *)

Definition calendar_attrs : list string :=
  ["VERSION"; "PRODID"; "CALSCALE"; "METHOD"].

(** Line 55: the VEVENT components of the calendar, in walk order. *)
Definition vevents (cal : Component) : list Component :=
  filter (fun comp => name comp = "VEVENT") (walk cal).

(** Lines 64-67: the dictionary [cal_properties], in insertion order. *)
Definition cal_properties_of (cal : Component) : list (string * PropValue) :=
  foldl (fun acc attr =>
           match props cal !! attr with
           | Some v => acc ++ [(attr, v)]
           | None => acc
           end) [] calendar_attrs.

(** Lines 69-76. *)
Definition create_calendar_with_events
  (cal_properties : list (string * PropValue)) (event_list : list Component)
  : Component :=
  let new_cal :=
    foldl (fun c av => add (fst av) (snd av) c) Calendar cal_properties in
  foldl (fun c e => add_component e c) new_cal event_list.

(** Lines 98 and 115. *)
Definition part_name (base_name : string) (file_counter : nat) : string :=
  base_name +:+ "_part" +:+ pretty file_counter +:+ ".ics".

Section Split.

(** The library's parser, serializer and equality of components
    ([==]). *)
Variable from_ical : string -> result Component.
Variable to_ical : Component -> string.
Variable component_eq : Component -> Component -> bool.

(** The exception that opening a path for writing and writing it raises,
    if the file system does not let the file be written.  A file whose
    write raised is not counted among the files written, whatever the
    failed call left at its path. *)
Variable write_error : string -> option exn.

Section Loop.

Variable cal_properties : list (string * PropValue).
Variable max_size : Z.
Variable base_name : string.
Variable events : list Component.

(** [len(create_calendar_with_events(l).to_ical())] *)
Definition size_of (l : list Component) : Z :=
  Z.of_nat (String.length (to_ical (create_calendar_with_events cal_properties l))).

(** [event == events[-1]] *)
Definition is_last (event : Component) : bool :=
  match last events with
  | Some e => component_eq event e
  | None => false
  end.

(** One iteration of the [for] loop (lines 85-111).  Nothing runs once an
    exception has left the loop. *)
Definition step (st : loop_state) (event : Component) : loop_state :=
  match raised st with
  | Some _ => st
  | None =>
      let current := current_events st ++ [event] in
      let test_cal := create_calendar_with_events cal_properties current in
      let current_size := Z.of_nat (String.length (to_ical test_cal)) in
      if Z.leb max_size current_size || is_last event then
        (* lines 93-95 *)
        let popped := Z.leb max_size current_size && Nat.ltb 1 (length current) in
        let current := if popped then removelast current else current in
        let test_cal :=
          if popped then create_calendar_with_events cal_properties current
          else test_cal in
        (* lines 98-103 *)
        let output_file := part_name base_name (file_counter st) in
        match write_error output_file with
        | None =>
            let bytes := to_ical test_cal in
            mk_loop_state
              (* lines 106-109: the length is that of the list after the pop *)
              (if Z.leb max_size current_size && Nat.ltb 1 (length current)
               then [event] else [])
              (S (file_counter st))
              (written st ++ [mk_out_file output_file test_cal])
              (stdout st ++ [Created output_file (length current) (String.length bytes)])
              None
        | Some e =>
            (* lines 99-100 raise *)
            mk_loop_state current (file_counter st) (written st) (stdout st) (Some e)
        end
      else
        mk_loop_state current (file_counter st) (written st) (stdout st) None
  end.

(** Lines 114-122. *)
Definition flush (st : loop_state) : loop_state :=
  match raised st with
  | Some _ => st
  | None =>
      match current_events st with
      | [] => st
      | _ :: _ =>
          let output_file := part_name base_name (file_counter st) in
          let final_cal :=
            create_calendar_with_events cal_properties (current_events st) in
          match write_error output_file with
          | None =>
              mk_loop_state
                (current_events st)
                (file_counter st)
                (written st ++ [mk_out_file output_file final_cal])
                (stdout st ++ [Created output_file (length (current_events st))
                                       (String.length (to_ical final_cal))])
                None
          | Some e =>
              (* lines 118-119 raise *)
              mk_loop_state (current_events st) (file_counter st) (written st)
                (stdout st) (Some e)
          end
      end
  end.

(** Lines 79-80. *)
Definition init : loop_state := mk_loop_state [] 1 [] [] None.

(** The state after the first [i] iterations. *)
Definition state_at (i : nat) : loop_state := foldl step init (take i events).

Definition run_loop : loop_state := flush (foldl step init events).

End Loop.

Definition split_ics_file (fs : gmap string string) (input_file : string)
  (max_size_mb : spec_float) : run :=
  match max_size_of max_size_mb with
  | Raise e => mk_run [] [] (Raise e)
  | Ok max_size =>
      match fs !! input_file with
      | None => mk_run [] [] (Raise FileNotFoundError)
      | Some data =>
          match from_ical data with
          | Raise e => mk_run [] [] (Raise e)
          | Ok cal =>
              match vevents cal with
              | [] => mk_run [] [NoEventsFound] (Ok tt)
              | _ :: _ =>
                  match sort_events (vevents cal) with
                  | Raise e => mk_run [] [] (Raise e)
                  | Ok events =>
                      let cal_properties := cal_properties_of cal in
                      let base_name := fst (splitext input_file) in
                      let st := run_loop cal_properties max_size base_name events in
                      mk_run (written st) (stdout st)
                        match raised st with
                        | Some e => Raise e
                        | None => Ok tt
                        end
                  end
              end
          end
      end
  end.

(** The file system after a run, as far as the files it wrote go: each
    written file holds the serialization of its calendar. *)
Definition fs_after (fs : gmap string string) (r : run) : gmap string string :=
  foldl (fun fs f => <[out_path f := to_ical (out_cal f)]> fs) fs (run_written r).

(** The size in bytes of a written file. *)
Definition file_size (f : out_file) : Z :=
  Z.of_nat (String.length (to_ical (out_cal f))).

End Split.

(** ** A reference parser and serializer

    The library's [from_ical] and [to_ical], restricted to unfolded content
    lines [NAME:VALUE] (parameters are read and dropped) ended by CRLF.
    They follow the library's structure: a stack of open components on the
    way in, BEGIN line, property lines, subcomponents and END line on the
    way out.  They stand for the library only on the inputs they are run
    on here, calendars whose properties are short text values; the
    theorems about all runs are proved for any parser and serializer. *)
Module Ref.

Definition CRLF : string := String "013"%char (String "010"%char EmptyString).

(** *** Serializer *)

Fixpoint zeros (n : nat) : string :=
  match n with
  | O => ""
  | S n' => String "0"%char (zeros n')
  end.

(** A number in decimal, padded with zeros to [width] digits. *)
Definition padded (width : nat) (n : Z) : string :=
  let s := pretty (Z.to_N n) in
  zeros (width - String.length s) +:+ s.

Definition date_to_ical (d : date) : string :=
  padded 4 (year d) +:+ padded 2 (month d) +:+ padded 2 (day d).

Definition time_to_ical (t : time) : string :=
  padded 2 (hour t) +:+ padded 2 (minute t) +:+ padded 2 (second t).

(** One property line, without its line end. *)
Definition content_line (key : string) (v : PropValue) : string :=
  match v with
  | vText s => key +:+ ":" +:+ s
  | vDDDTypes (DtDate d) => key +:+ ";VALUE=DATE:" +:+ date_to_ical d
  | vDDDTypes (DtDatetime dt) =>
      key +:+ ":" +:+ date_to_ical (dt_date dt) +:+ "T" +:+ time_to_ical (dt_time dt)
      +:+ match tzinfo dt with Some _ => "Z" | None => "" end
  | vDDDTypes (DtTimedelta s) => key +:+ ":PT" +:+ pretty (Z.to_N s) +:+ "S"
  end.

Definition concat_lines (lines : list string) : string :=
  foldr (fun l acc => l +:+ CRLF +:+ acc) "" lines.

Fixpoint content_lines (c : Component) : list string :=
  ("BEGIN:" +:+ name c)
    :: map (fun kv => content_line (fst kv) (snd kv)) (map_to_list (props c))
    ++ flat_map content_lines (subcomponents c)
    ++ ["END:" +:+ name c].

Definition to_ical (c : Component) : string := concat_lines (content_lines c).

(** *** Parser *)

(** Cut the input at each LF and drop the CR before it. *)
Fixpoint split_lines_from (s : string) (line : string) : list string :=
  match s with
  | EmptyString => if decide (line = "") then [] else [line]
  | String a s' =>
      if Ascii.eqb a "010"%char then line :: split_lines_from s' ""
      else if Ascii.eqb a "013"%char then split_lines_from s' line
      else split_lines_from s' (line +:+ String a EmptyString)
  end.

Definition split_lines (s : string) : list string := split_lines_from s "".

(** [s] up to the first character satisfying [stop], and the rest from
    that character on. *)
Fixpoint break (stop : ascii -> bool) (s : string) : string * string :=
  match s with
  | EmptyString => ("", "")
  | String a s' =>
      if stop a then ("", s)
      else let '(l, r) := break stop s' in (String a l, r)
  end.

(** [Contentline.parts()]: the name and the value of a line. *)
Definition parts (line : string) : result (string * string) :=
  let '(name, rest) :=
    break (fun a => Ascii.eqb a ";"%char || Ascii.eqb a ":"%char) line in
  match snd (break (fun a => Ascii.eqb a ":"%char) rest) with
  | String _ value => Ok (name, value)
  | EmptyString => Raise ValueError
  end.

Definition upper_ascii (a : ascii) : ascii :=
  let n := nat_of_ascii a in
  if Nat.leb 97 n && Nat.leb n 122 then ascii_of_nat (n - 32) else a.

Fixpoint upper (s : string) : string :=
  match s with
  | EmptyString => EmptyString
  | String a s' => String (upper_ascii a) (upper s')
  end.

Definition digit (a : ascii) : option Z :=
  let n := nat_of_ascii a in
  if Nat.leb 48 n && Nat.leb n 57 then Some (Z.of_nat (n - 48)) else None.

Fixpoint number_from (s : string) (acc : Z) : option Z :=
  match s with
  | EmptyString => Some acc
  | String a s' =>
      match digit a with
      | Some d => number_from s' (10 * acc + d)
      | None => None
      end
  end.

Definition number (s : string) : option Z :=
  match s with
  | EmptyString => None
  | _ => number_from s 0
  end.

Definition parse_date (s : string) : option date :=
  y ← number (substring 0 4 s);
  m ← number (substring 4 2 s);
  d ← number (substring 6 2 s);
  Some (mk_date y m d).

Definition parse_time (s : string) : option time :=
  h ← number (substring 0 2 s);
  m ← number (substring 2 2 s);
  sec ← number (substring 4 2 s);
  Some (mk_time h m sec 0).

(** [vDDDTypes.from_ical]: the shape is chosen by the length. *)
Definition parse_ddd (value : string) : result PropValue :=
  let n := String.length value in
  if Nat.eqb n 8 then
    match parse_date value with
    | Some d => Ok (vDDDTypes (DtDate d))
    | None => Raise ValueError
    end
  else if (Nat.eqb n 15 || Nat.eqb n 16)
          && bool_decide (substring 8 1 value = "T")
          && (Nat.eqb n 15 || bool_decide (substring 15 1 value = "Z")) then
    match parse_date (substring 0 8 value), parse_time (substring 9 6 value) with
    | Some d, Some t =>
        Ok (vDDDTypes (DtDatetime
              (mk_datetime d t (if Nat.eqb n 16 then Some 0 else None))))
    | _, _ => Raise ValueError
    end
  else Raise ValueError.

Definition date_typed : list string :=
  ["DTSTART"; "DTEND"; "DTSTAMP"; "CREATED"; "LAST-MODIFIED"].

Definition parse_value (uname : string) (value : string) : result PropValue :=
  if bool_decide (uname ∈ date_typed) then parse_ddd value
  else Ok (vText value).

(** The loop of [Component.from_ical] over the content lines, with the
    stack of open components and the list of finished top-level ones. *)
Fixpoint parse_lines (lines : list string) (stack comps : list Component)
  : result (list Component) :=
  match lines with
  | [] => Ok comps
  | line :: rest =>
      if decide (line = "") then parse_lines rest stack comps
      else
        nv ← parts line;
        let uname := upper (fst nv) in
        if decide (uname = "BEGIN") then
          parse_lines rest (mkComponent (upper (snd nv)) ∅ [] :: stack) comps
        else if decide (uname = "END") then
          match stack with
          | [] => Raise ValueError
          | component :: [] => parse_lines rest [] (comps ++ [component])
          | component :: parent :: stack' =>
              parse_lines rest (add_component component parent :: stack') comps
          end
        else
          match stack with
          | [] => Raise ValueError
          | component :: stack' =>
              v ← parse_value uname (snd nv);
              parse_lines rest (add uname v component :: stack') comps
          end
  end.

Definition from_ical (data : string) : result Component :=
  comps ← parse_lines (split_lines data) [] [];
  match comps with
  | [c] => Ok c
  | _ => Raise ValueError
  end.

End Ref.

(** ** Definitions that follow the specification's words *)

(** The field the specification's date extractor reads: the first present
    of DTSTART, DTSTAMP and CREATED. *)
Definition first_date_field (event : Component) : option PropValue :=
  match props event !! "DTSTART" with
  | Some v => Some v
  | None =>
      match props event !! "DTSTAMP" with
      | Some v => Some v
      | None => props event !! "CREATED"
      end
  end.

(** [os.path.basename] (POSIX). *)
Definition basename (p : string) : string :=
  slice p (rfind "/"%char p + 1) (Z.of_nat (String.length p)).

(** The name of the [k]-th part as the specification words it,
    [<input-base><ext removed>_part<k>.<original-ext>]: the input's base
    name with directory and extension removed, the part counter, and the
    input's own extension. *)
Definition spec_part_name (input_file : string) (k : nat) : string :=
  fst (splitext (basename input_file)) +:+ "_part" +:+ pretty k
  +:+ snd (splitext input_file).

(** A write happens in iteration [i] (counting from 0). *)
Definition writes_at (to_ical : Component -> string)
  (component_eq : Component -> Component -> bool) (write_error : string -> option exn)
  (cal_properties : list (string * PropValue)) (max_size : Z)
  (base_name : string) (events : list Component) (i : nat) : Prop :=
  length (written (state_at to_ical component_eq write_error cal_properties max_size
                     base_name events (S i)))
  <> length (written (state_at to_ical component_eq write_error cal_properties max_size
                        base_name events i)).

(** ** The invariant of the batching loop *)

Section LoopInvariant.

Variable to_ical : Component -> string.
Variable cal_properties : list (string * PropValue).
Variable max_size : Z.
Variable base_name : string.

(** What holds of the [k]-th file written (counting from 0): its name,
    its calendar, and that its batch is not empty and was measured below
    the limit unless it is a single event. *)
Definition file_ok (k : nat) (f : out_file) : Prop :=
  out_path f = part_name base_name (S k)
  /\ out_cal f = create_calendar_with_events cal_properties (out_events f)
  /\ out_events f <> []
  /\ (size_of to_ical cal_properties (out_events f) < max_size
      \/ exists e, out_events f = [e]).

Definition written_ok (ws : list out_file) : Prop :=
  forall k f, ws !! k = Some f -> file_ok k f.

(** A batch that is still open was measured below the limit, unless it
    is the single event carried over from the last write. *)
Definition batch_ok (l : list Component) : Prop :=
  l = [] \/ size_of to_ical cal_properties l < max_size \/ exists e, l = [e].

Definition loop_inv (st : loop_state) : Prop :=
  written_ok (written st)
  /\ file_counter st = S (length (written st))
  /\ batch_ok (current_events st).

End LoopInvariant.

(** ** Example inputs *)
Module Example.

Definition event_ics (summary : string) : string :=
  "BEGIN:VEVENT" +:+ Ref.CRLF +:+ "SUMMARY:" +:+ summary +:+ Ref.CRLF
  +:+ "END:VEVENT" +:+ Ref.CRLF.

Definition calendar_ics (body : string) : string :=
  "BEGIN:VCALENDAR" +:+ Ref.CRLF +:+ "VERSION:2.0" +:+ Ref.CRLF +:+ body
  +:+ "END:VCALENDAR" +:+ Ref.CRLF.

Definition event (summary : string) : Component :=
  mkComponent "VEVENT" {[ "SUMMARY" := vText summary ]} [].

Definition calendar (events : list Component) : Component :=
  mkComponent "VCALENDAR" {[ "VERSION" := vText "2.0" ]} events.

(** A calendar of two events, 119 bytes. *)
Definition two_events : string := calendar_ics (event_ics "a" +:+ event_ics "b").

(** Twice the same event. *)
Definition duplicate : string := calendar_ics (event_ics "a" +:+ event_ics "a").

Definition empty_calendar : string := calendar_ics "".

(** A calendar that is never closed. *)
Definition broken : string := "BEGIN:VCALENDAR" +:+ Ref.CRLF.

Definition fs : gmap string string :=
  {[ "data/cal.txt" := two_events; "dup.ics" := duplicate;
     "empty.ics" := empty_calendar; "broken.ics" := broken ]}.

(** A file system on which every write succeeds. *)
Definition writable : string -> option exn := fun _ => None.

(** The limits [0.0001], [0.00005], [0.00001] and [1.0] of the command
    line. *)
Definition mb_0_0001 : spec_float := float_of_ratio 1 10000.
Definition mb_0_00005 : spec_float := float_of_ratio 5 100000.
Definition mb_0_00001 : spec_float := float_of_ratio 1 100000.
Definition mb_1 : spec_float := float_of_Z 1.

(** The only file written for [data/cal.txt] under a limit of 0.0001 MB. *)
Definition part1 : out_file :=
  mk_out_file "data/cal_part1.ics" (calendar [event "a"]).

Definition christmas : datetime :=
  mk_datetime (mk_date 2024 12 25) (mk_time 9 30 0 0) None.

(** An event with a start date and a time stamp in UTC. *)
Definition dated_event : Component :=
  mkComponent "VEVENT"
    {[ "DTSTAMP" := vDDDTypes (DtDatetime
                      (mk_datetime (mk_date 2024 1 1) (mk_time 12 0 0 0) (Some 0)));
       "DTSTART" := vDDDTypes (DtDate (mk_date 2024 12 25)) ]} [].

End Example.

(** ** Induction on components *)

Fixpoint Component_nested_ind (P : Component -> Prop)
  (H : forall n p subs, Forall P subs -> P (mkComponent n p subs))
  (c : Component) : P c :=
  match c with
  | mkComponent n p subs =>
      H n p subs
        ((fix go (l : list Component) : Forall P l :=
            match l with
            | [] => @List.Forall_nil _ P
            | x :: l0 => @List.Forall_cons _ P x l0 (Component_nested_ind P H x) (go l0)
            end) subs)
  end.

(** ** What the loop keeps of the events it has gone through *)

(** The line printed for a written file (lines 102-103 and 121-122). *)
Definition report (to_ical : Component -> string) (f : out_file) : message :=
  Created (out_path f) (length (out_events f)) (String.length (to_ical (out_cal f))).

(** [batch] is a run of consecutive elements of [l]. *)
Definition contiguous_in (batch l : list Component) : Prop :=
  exists before after, l = before ++ batch ++ after.

(** What the loop keeps of the events it has gone through: the batches
    written and the open batch, in this order, are a subsequence of them;
    every written batch is a run of consecutive events and, while no
    exception has left the loop, the open batch is the last such run; one
    line is printed per file. *)
Definition trace_inv (to_ical : Component -> string) (st : loop_state)
  (seen : list Component) : Prop :=
  sublist (concat (map out_events (written st)) ++ current_events st) seen
  /\ Forall (fun f => contiguous_in (out_events f) seen) (written st)
  /\ (raised st = None -> exists before, seen = before ++ current_events st)
  /\ stdout st = map (report to_ical) (written st).

(** ** [main] (lines 124-142) *)

(** The lines [main] prints: its own, and those of [split_ics_file]. *)
Inductive main_message : Type :=
  | InputDoesNotExist (input_file : string)
  | Printed (m : message)
  | SplitCompleted
  | ErrorOccurred (e : exn).

Record main_run : Type :=
  mk_main_run {
    main_written : list out_file;
    main_stdout : list main_message
  }.

Section Main.

Variable from_ical : string -> result Component.
Variable to_ical : Component -> string.
Variable component_eq : Component -> Component -> bool.
Variable write_error : string -> option exn.

(** [main] once the arguments are parsed: [input_file] and [max_size]. *)
Definition main (fs : gmap string string) (input_file : string)
  (max_size : spec_float) : main_run :=
  match fs !! input_file with
  | None => mk_main_run [] [InputDoesNotExist input_file]
  | Some _ =>
      let r := split_ics_file from_ical to_ical component_eq write_error fs input_file
                 max_size in
      match outcome r with
      | Ok _ =>
          mk_main_run (run_written r) (map Printed (run_stdout r) ++ [SplitCompleted])
      | Raise e =>
          mk_main_run (run_written r) (map Printed (run_stdout r) ++ [ErrorOccurred e])
      end
  end.

End Main.

(** ** More example inputs *)
Module Sample.

(** A calendar with one event. *)
Definition one_event : string := Example.calendar_ics (Example.event_ics "a").

Definition fs : gmap string string :=
  {[ "one.ics" := one_event; "bad.ics" := "DTSTART:PT1H" ]}.

(** An event whose start is a duration, as the library reads
    [DTSTART:PT1H]. *)
Definition bad_event : Component :=
  mkComponent "VEVENT" {[ "DTSTART" := vDDDTypes (DtTimedelta 3600) ]} [].

Definition bad_calendar : Component :=
  Example.calendar [Example.event "a"; bad_event].

(** A file system that refuses the second part of [dup.ics]. *)
Definition second_part_fails : string -> option exn :=
  fun path => if String.eqb path "dup_part2.ics" then Some OSError else None.

(** A file system that refuses a path no run on [dup.ics] writes. *)
Definition notes_refused : string -> option exn :=
  fun path => if String.eqb path "notes.txt" then Some OSError else None.

(** The first part of [dup.ics]. *)
Definition dup_part1 : out_file :=
  mk_out_file "dup_part1.ics" (Example.calendar [Example.event "a"]).

(** A parser that reads every input as [cal]. *)
Definition read_as (cal : Component) : string -> result Component :=
  fun _ => Ok cal.

(** The one file written for [one.ics]. *)
Definition one_part : out_file :=
  mk_out_file "one_part1.ics" (Example.calendar [Example.event "a"]).

End Sample.

(** ** Facts about the library operations *)

Lemma props_add_components (c : Component) (l : list Component) :
  props (foldl (fun c e => add_component e c) c l) = props c.
Proof.
  revert c. induction l as [|e l IH]; intros c; simpl; [reflexivity|].
  rewrite IH. reflexivity.
Qed.

Lemma subcomponents_add_components (c : Component) (l : list Component) :
  subcomponents (foldl (fun c e => add_component e c) c l) = subcomponents c ++ l.
Proof.
  revert c. induction l as [|e l IH]; intros c; simpl.
  - symmetry. apply app_nil_r.
  - rewrite IH. simpl. rewrite <- app_assoc. reflexivity.
Qed.

Lemma subcomponents_adds (c : Component) (cps : list (string * PropValue)) :
  subcomponents (foldl (fun c av => add (fst av) (snd av) c) c cps) = subcomponents c.
Proof.
  revert c. induction cps as [|av cps IH]; intros c; simpl; [reflexivity|].
  rewrite IH. reflexivity.
Qed.

Lemma name_adds (c : Component) (cps : list (string * PropValue)) :
  name (foldl (fun c av => add (fst av) (snd av) c) c cps) = name c.
Proof.
  revert c. induction cps as [|av cps IH]; intros c; simpl; [reflexivity|].
  rewrite IH. reflexivity.
Qed.

Lemma subcomponents_create (cps : list (string * PropValue)) (l : list Component) :
  subcomponents (create_calendar_with_events cps l) = l.
Proof.
  unfold create_calendar_with_events.
  rewrite subcomponents_add_components, subcomponents_adds. reflexivity.
Qed.

Lemma props_create (cps : list (string * PropValue)) (l : list Component) :
  props (create_calendar_with_events cps l) = props (create_calendar_with_events cps []).
Proof.
  unfold create_calendar_with_events. rewrite props_add_components. reflexivity.
Qed.

Section LoopFacts.

Variable to_ical : Component -> string.
Variable component_eq : Component -> Component -> bool.
Variable write_error : string -> option exn.
Variable cal_properties : list (string * PropValue).
Variable max_size : Z.
Variable base_name : string.
Variable events : list Component.

Abbreviation batch_size := (size_of to_ical cal_properties).
Abbreviation loop_step :=
  (step to_ical component_eq write_error cal_properties max_size base_name events).
Abbreviation loop_flush := (flush to_ical write_error cal_properties base_name).

Abbreviation FileOk := (file_ok to_ical cal_properties max_size base_name).
Abbreviation WrittenOk := (written_ok to_ical cal_properties max_size base_name).
Abbreviation BatchOk := (batch_ok to_ical cal_properties max_size).
Abbreviation LoopInv := (loop_inv to_ical cal_properties max_size base_name).

Lemma written_ok_snoc (ws : list out_file) (f : out_file) :
  WrittenOk ws -> FileOk (length ws) f -> WrittenOk (ws ++ [f]).
Proof.
  intros Hws Hf k g Hk.
  destruct (decide (k < length ws)%nat) as [Hlt|Hge].
  - rewrite lookup_app_l in Hk by exact Hlt. apply Hws, Hk.
  - rewrite lookup_app_r in Hk by lia.
    destruct (k - length ws)%nat as [|n] eqn:E; simpl in Hk; [|destruct n; discriminate].
    injection Hk as <-. replace k with (length ws) by lia. exact Hf.
Qed.

Lemma file_ok_batch (k : nat) (l : list Component) :
  l <> [] -> BatchOk l ->
  FileOk k (mk_out_file (part_name base_name (S k))
               (create_calendar_with_events cal_properties l)).
Proof.
  intros Hne Hb. unfold file_ok, out_events. simpl.
  rewrite subcomponents_create.
  repeat split; try assumption.
  destruct Hb as [->|Hb]; [contradiction|exact Hb].
Qed.

Lemma init_inv : LoopInv init.
Proof.
  split; [|split].
  - intros k f Hk. discriminate.
  - reflexivity.
  - left. reflexivity.
Qed.

Lemma step_inv (st : loop_state) (event : Component) :
  LoopInv st -> LoopInv (loop_step st event).
Proof.
  intros (Hws & Hc & Hb). unfold step.
  destruct (raised st); [exact (conj Hws (conj Hc Hb))|].
  fold (size_of to_ical cal_properties (current_events st ++ [event])).
  destruct (Z.leb_spec max_size (batch_size (current_events st ++ [event]))) as [Hbig|Hsmall];
    simpl.
  - (* the size test fires *)
    destruct (Nat.ltb_spec 1 (length (current_events st ++ [event]))) as [Hlen|Hlen]; simpl.
    + rewrite removelast_last.
      rewrite length_app in Hlen. simpl in Hlen.
      assert (Hne : current_events st <> []).
      { intros E. rewrite E in Hlen. simpl in Hlen. lia. }
      destruct (write_error (part_name base_name (file_counter st))) as [x|];
        [exact (conj Hws (conj Hc Hb))|].
      split; [|split]; simpl.
      * apply written_ok_snoc; [exact Hws|].
        rewrite Hc. apply file_ok_batch; assumption.
      * rewrite length_app. simpl. lia.
      * destruct (1 <? length (current_events st))%nat;
          [right; right; eexists; reflexivity | left; reflexivity].
    + rewrite length_app in Hlen. simpl in Hlen.
      assert (E : current_events st = []).
      { destruct (current_events st); [reflexivity|simpl in Hlen; lia]. }
      rewrite E. simpl.
      destruct (write_error (part_name base_name (file_counter st))) as [x|];
        (split; [|split]); simpl; try assumption.
      * right. right. eexists. reflexivity.
      * apply written_ok_snoc; [exact Hws|].
        rewrite Hc. apply file_ok_batch; [discriminate|].
        right. right. eexists. reflexivity.
      * rewrite length_app. simpl. lia.
      * left. reflexivity.
  - destruct (is_last component_eq events event); simpl.
    + destruct (write_error (part_name base_name (file_counter st))) as [x|];
        (split; [|split]); simpl; try assumption.
      * right. left. exact Hsmall.
      * apply written_ok_snoc; [exact Hws|].
        rewrite Hc. apply file_ok_batch.
        -- intros E. apply app_eq_nil in E. destruct E; discriminate.
        -- right. left. exact Hsmall.
      * rewrite length_app. simpl. lia.
      * left. reflexivity.
    + split; [|split]; simpl; try assumption.
      right. left. exact Hsmall.
Qed.

(** An iteration writes a file exactly when no exception has left the
    loop, the measured size reaches the limit or the event equals the
    last one, and the part can be written. *)
Lemma step_writes_iff (st : loop_state) (event : Component) :
  length (written (loop_step st event)) <> length (written st)
  <-> raised st = None
      /\ (max_size <= batch_size (current_events st ++ [event])
          \/ is_last component_eq events event = true)
      /\ write_error (part_name base_name (file_counter st)) = None.
Proof.
  unfold step.
  destruct (raised st) as [e|]; [split; [congruence|intros (H & _); discriminate]|].
  fold (size_of to_ical cal_properties (current_events st ++ [event])).
  destruct (Z.leb_spec max_size (size_of to_ical cal_properties (current_events st ++ [event])))
    as [Hbig|Hsmall]; simpl.
  - destruct (write_error (part_name base_name (file_counter st))); simpl.
    + split; [congruence|intros (_ & _ & H); discriminate].
    + rewrite length_app. simpl. split; [auto|lia].
  - destruct (is_last component_eq events event); simpl.
    + destruct (write_error (part_name base_name (file_counter st))); simpl.
      * split; [congruence|intros (_ & _ & H); discriminate].
      * rewrite length_app. simpl. split; [auto|lia].
    + split; [congruence|]. intros (_ & [H|H] & _); [lia|discriminate].
Qed.

Lemma foldl_step_inv (l : list Component) (st : loop_state) :
  LoopInv st -> LoopInv (foldl loop_step st l).
Proof.
  revert st. induction l as [|e l IH]; intros st Hst; simpl; [exact Hst|].
  apply IH, step_inv, Hst.
Qed.

Lemma flush_written_ok (st : loop_state) :
  LoopInv st -> WrittenOk (written (loop_flush st)).
Proof.
  intros (Hws & Hc & Hb). unfold flush.
  destruct (raised st); [exact Hws|].
  destruct (current_events st) as [|e l] eqn:E; [exact Hws|].
  destruct (write_error (part_name base_name (file_counter st))); [exact Hws|]. simpl.
  apply written_ok_snoc; [exact Hws|].
  rewrite Hc. apply file_ok_batch; [discriminate|exact Hb].
Qed.

Lemma run_loop_written_ok :
  WrittenOk (written (run_loop to_ical component_eq write_error cal_properties max_size
                        base_name events)).
Proof. apply flush_written_ok, foldl_step_inv, init_inv. Qed.

End LoopFacts.

(** ** The effective limit is below the configured one *)

(** The two constants are the floats nearest to [1024] and [0.95]. *)
Lemma f1024_nearest : f1024 = float_of_Z 1024.
Proof. vm_compute. reflexivity. Qed.

Lemma f095_nearest : f095 = float_of_ratio 95 100.
Proof. vm_compute. reflexivity. Qed.

(** The limits [nan], [inf] and [1e308] are refused by line 48; the
    product truncates as Python's does. *)
Lemma max_size_of_nan : max_size_of S754_nan = Raise ValueError.
Proof. reflexivity. Qed.

Lemma max_size_of_inf : max_size_of (S754_infinity false) = Raise OverflowError.
Proof. reflexivity. Qed.

Lemma max_size_of_huge :
  max_size_of (S754_finite false 5010420900022432 971) = Raise OverflowError.
Proof. vm_compute. reflexivity. Qed.

Lemma max_size_of_truncates :
  max_size_of (S754_finite false 7703525678396901 (-69)) = Ok 13.
Proof. vm_compute. reflexivity. Qed.

Lemma shr_1_m (r : shr_record) :
  0 <= shr_m r -> shr_m (shr_1 r) = shr_m r / 2 /\ 0 <= shr_m (shr_1 r).
Proof.
  destruct r as [m rb sb]. intros Hm. simpl in Hm.
  destruct m as [|[p|p|]|p]; try lia; cbn [shr_1 shr_m].
  - split; [reflexivity|lia].
  - split; [|lia]. apply (Z.div_unique (Z.pos p~1) 2 (Z.pos p) 1); lia.
  - split; [|lia]. apply (Z.div_unique (Z.pos p~0) 2 (Z.pos p) 0); lia.
  - split; [reflexivity|lia].
Qed.

Lemma iter_shr_1_m (p : positive) (r : shr_record) :
  0 <= shr_m r ->
  shr_m (SpecFloat.iter_pos shr_1 p r) = shr_m r / 2 ^ Zpos p
  /\ 0 <= shr_m (SpecFloat.iter_pos shr_1 p r).
Proof.
  revert r. induction p as [p IH|p IH|]; intros r Hr; cbn [SpecFloat.iter_pos].
  - destruct (shr_1_m r Hr) as [E1 H1].
    destruct (IH _ H1) as [E2 H2]. destruct (IH _ H2) as [E3 H3].
    split; [|exact H3]. rewrite E3, E2, E1.
    rewrite !Z.div_div by lia. f_equal.
    replace (Z.pos p~1) with (1 + Z.pos p + Z.pos p) by lia.
    rewrite !Z.pow_add_r by lia. change (2 ^ 1) with 2. ring.
  - destruct (IH _ Hr) as [E2 H2]. destruct (IH _ H2) as [E3 H3].
    split; [|exact H3]. rewrite E3, E2.
    rewrite Z.div_div by lia. f_equal.
    replace (Z.pos p~0) with (Z.pos p + Z.pos p) by lia.
    rewrite Z.pow_add_r by lia. reflexivity.
  - apply shr_1_m, Hr.
Qed.

Lemma shr_record_of_loc_m (m : Z) (l : location) : shr_m (shr_record_of_loc m l) = m.
Proof. destruct l as [|[| |]]; reflexivity. Qed.

(** The first step of rounding drops the low bits of the mantissa. *)
Lemma shr_fexp_m (m e : Z) (l : location) :
  0 <= m ->
  let n := Z.max 0 (fexp 53 1024 (Zdigits2 m + e) - e) in
  shr_m (fst (shr_fexp 53 1024 m e l)) = m / 2 ^ n
  /\ snd (shr_fexp 53 1024 m e l) = e + n.
Proof.
  intros Hm n. unfold shr_fexp, shr. subst n.
  destruct (fexp 53 1024 (Zdigits2 m + e) - e) as [|p|p] eqn:E; cbn [fst snd].
  - rewrite shr_record_of_loc_m, Z.max_l by lia. rewrite Z.div_1_r. lia.
  - rewrite Z.max_r by lia.
    destruct (iter_shr_1_m p (shr_record_of_loc m l)) as [H _].
    { rewrite shr_record_of_loc_m. exact Hm. }
    rewrite H, shr_record_of_loc_m. split; reflexivity.
  - rewrite shr_record_of_loc_m, Z.max_l by lia. rewrite Z.div_1_r. lia.
Qed.

Lemma round_nearest_even_bounds (m : Z) (l : location) :
  m <= round_nearest_even m l <= m + 1.
Proof.
  unfold round_nearest_even. destruct l as [|[| |]]; try lia.
  destruct (Z.even m); lia.
Qed.

Lemma digits2_pos_bounds (m : positive) :
  2 ^ (Zpos (digits2_pos m) - 1) <= Zpos m < 2 ^ Zpos (digits2_pos m).
Proof.
  induction m as [m IH|m IH|]; cbn [digits2_pos].
  - rewrite Pos2Z.inj_succ.
    replace (Z.succ (Z.pos (digits2_pos m)) - 1) with (1 + (Z.pos (digits2_pos m) - 1)) by lia.
    rewrite Z.pow_succ_r, Z.pow_add_r by lia. change (2 ^ 1) with 2. lia.
  - rewrite Pos2Z.inj_succ.
    replace (Z.succ (Z.pos (digits2_pos m)) - 1) with (1 + (Z.pos (digits2_pos m) - 1)) by lia.
    rewrite Z.pow_succ_r, Z.pow_add_r by lia. change (2 ^ 1) with 2. lia.
  - change (2 ^ (1 - 1) <= 1 < 2 ^ 1). change (2 ^ (1 - 1)) with 1. change (2 ^ 1) with 2. lia.
Qed.

(** What rounding does to a positive mantissa: the result is above the
    exact value by less than one unit of the first shift. *)
Lemma binary_round_aux_finite (s s3 : bool) (M e : Z) (m3 : positive) (e3 : Z) :
  0 < M ->
  binary_round_aux 53 1024 s M e loc_Exact = S754_finite s3 m3 e3 ->
  let n := Z.max 0 (fexp 53 1024 (Zdigits2 M + e) - e) in
  s3 = s
  /\ exists n2, 0 <= n2 /\ e3 = e + n + n2
                /\ Zpos m3 * 2 ^ (n + n2) <= M + 2 ^ n.
Proof.
  intros HM H n. unfold binary_round_aux in H.
  destruct (shr_fexp_m M e loc_Exact ltac:(lia)) as [Hm1 He1]. fold n in Hm1, He1.
  destruct (shr_fexp 53 1024 M e loc_Exact) as [mrs' e'] eqn:E1.
  cbn [fst snd] in Hm1, He1.
  set (m1 := round_nearest_even (shr_m mrs') (loc_of_shr_record mrs')) in H.
  assert (Hn : 0 <= n) by (subst n; lia).
  assert (Hm' : 0 <= shr_m mrs').
  { rewrite Hm1. apply Z.div_pos; [lia|]. apply Z.pow_pos_nonneg; lia. }
  pose proof (round_nearest_even_bounds (shr_m mrs') (loc_of_shr_record mrs')) as Hr.
  fold m1 in Hr.
  destruct (shr_fexp_m m1 e' loc_Exact ltac:(lia)) as [Hm2 He2].
  set (n2 := Z.max 0 (fexp 53 1024 (Zdigits2 m1 + e') - e')) in Hm2, He2.
  destruct (shr_fexp 53 1024 m1 e' loc_Exact) as [mrs'' e''] eqn:E2.
  cbn [fst snd] in Hm2, He2.
  destruct (shr_m mrs'') as [|m|m] eqn:E3; try discriminate.
  destruct (Z.leb e'' (1024 - 53)); try discriminate.
  injection H as <- <- <-. split; [reflexivity|].
  exists n2. assert (Hn2 : 0 <= n2) by (subst n2; lia).
  split; [exact Hn2|]. split; [lia|].
  assert (H2n : 0 < 2 ^ n) by (apply Z.pow_pos_nonneg; lia).
  assert (H2n2 : 0 < 2 ^ n2) by (apply Z.pow_pos_nonneg; lia).
  rewrite Z.pow_add_r by lia.
  pose proof (Z.mul_div_le m1 (2 ^ n2) H2n2) as Ha.
  pose proof (Z.mul_div_le M (2 ^ n) H2n) as Hb.
  rewrite <- Hm2 in Ha. rewrite <- Hm1 in Hb.
  nia.
Qed.

Lemma scaled_le (a b ea eb t : Z) :
  t <= ea -> t <= eb ->
  a * 2 ^ (ea - t) <= b * 2 ^ (eb - t) ->
  (inject_Z a * 2 ^ ea <= inject_Z b * 2 ^ eb)%Q.
Proof.
  intros Ha Hb H.
  assert (E : forall x, t <= x -> (2 ^ x == inject_Z (2 ^ (x - t)) * 2 ^ t)%Q).
  { intros x Hx. rewrite Zpower_Qpower by lia. change (inject_Z 2) with 2%Q.
    rewrite <- Qpower_plus by discriminate. replace (x - t + t) with x by lia.
    reflexivity. }
  rewrite (E ea Ha), (E eb Hb). rewrite !Qmult_assoc.
  apply Qmult_le_compat_r; [|apply Qpower_0_le; discriminate].
  rewrite <- !inject_Z_mult. rewrite <- Zle_Qle. exact H.
Qed.

(** [int] never goes above the value of a positive float. *)
Lemma int_of_float_le (m : positive) (e z : Z) :
  int_of_float (S754_finite false m e) = Ok z ->
  (inject_Z z <= float_value (S754_finite false m e))%Q.
Proof.
  cbn [int_of_float float_value]. intros H. injection H as <-.
  match goal with |- (inject_Z ?z <= _)%Q =>
    assert (X : (inject_Z z * 2 ^ 0 <= inject_Z (Z.pos m) * 2 ^ e)%Q)
  end.
  { destruct e as [|p|p].
    - apply (scaled_le _ _ 0 0 0); [lia|lia|]. rewrite Z.shiftl_0_r. apply Z.le_refl.
    - apply (scaled_le _ _ 0 (Z.pos p) 0); [lia|lia|].
      rewrite Z.shiftl_mul_pow2 by lia. rewrite Z.sub_0_r. change (2 ^ (0 - 0)) with 1.
      rewrite Z.mul_1_r. apply Z.le_refl.
    - apply (scaled_le _ _ 0 (Z.neg p) (Z.neg p)); [lia|lia|].
      rewrite Z.shiftr_div_pow2 by lia. rewrite Z.sub_diag.
      replace (0 - Z.neg p) with (Z.pos p) by lia. change (2 ^ 0) with 1.
      pose proof (Z.mul_div_le (Z.pos m) (2 ^ Z.pos p)
                    ltac:(apply Z.pow_pos_nonneg; lia)).
      lia. }
  change (2 ^ 0)%Q with 1%Q in X. rewrite Qmult_1_r in X. exact X.
Qed.

(** Multiplying a positive float by [0.95] gives a float that is not
    above it, or one whose integer part is zero. *)
Lemma fmul_095_le (mL m3 : positive) (eL e3 : Z) (s3 : bool) :
  fmul (S754_finite false mL eL) f095 = S754_finite s3 m3 e3 ->
  s3 = false
  /\ ((float_value (S754_finite s3 m3 e3) <= float_value (S754_finite false mL eL))%Q
      \/ int_of_float (S754_finite s3 m3 e3) = Ok 0).
Proof.
  unfold fmul, f095. cbn [SFmul xorb]. intros H.
  set (M := Z.pos (mL * 8556839292003942)) in H.
  set (e := eL + -53) in H.
  destruct (binary_round_aux_finite false s3 M e m3 e3 ltac:(subst M; lia) H)
    as (-> & n2 & Hn2 & He3 & Hle).
  split; [reflexivity|].
  set (n := Z.max 0 (fexp 53 1024 (Zdigits2 M + e) - e)) in He3, Hle.
  pose proof (digits2_pos_bounds mL) as HdL.
  pose proof (digits2_pos_bounds (mL * 8556839292003942)) as HdM.
  set (dL := Z.pos (digits2_pos mL)) in HdL.
  set (dM := Z.pos (digits2_pos (mL * 8556839292003942))) in HdM.
  assert (HM : M = Z.pos mL * 8556839292003942) by (subst M; lia).
  assert (Hn : 0 <= n) by (subst n; lia).
  assert (HdLM : dM <= dL + 53).
  { assert (2 ^ (dM - 1) < 2 ^ (dL + 53)).
    { rewrite Z.pow_add_r by (subst dL; lia).
      change (2 ^ 53) with 9007199254740992. fold M in HdM. nia. }
    apply Z.pow_lt_mono_r_iff in H0; subst dL; lia. }
  destruct (Z.le_gt_cases n dL) as [Hsmall|Hbig].
  - left. cbn [float_value].
    apply (scaled_le _ _ e3 eL e); [lia|subst e; lia|].
    replace (e3 - e) with (n + n2) by lia.
    replace (eL - e) with 53 by (subst e; lia).
    change (2 ^ 53) with 9007199254740992.
    assert (2 ^ n <= 2 * Z.pos mL).
    { transitivity (2 ^ dL); [apply Z.pow_le_mono_r; lia|].
      replace dL with (1 + (dL - 1)) by lia.
      rewrite Z.pow_add_r by (subst dL; lia). change (2 ^ 1) with 2. lia. }
    lia.
  - right. cbn [int_of_float]. f_equal.
    (* the result lies at the bottom of the exponent range *)
    assert (Hfexp : n = -1074 - e).
    { subst n. unfold fexp, emin, Zdigits2 in *.
      change (match M with
              | 0 => M
              | Z.pos p | Z.neg p => Z.pos (digits2_pos p)
              end) with dM in Hbig |- *.
      lia. }
    assert (HMlt : M < 2 ^ (n + 53)).
    { fold M in HdM. apply Z.lt_le_trans with (2 ^ dM); [lia|].
      apply Z.pow_le_mono_r; lia. }
    assert (H2n : 0 < 2 ^ n) by (apply Z.pow_pos_nonneg; lia).
    assert (Hm3 : Z.pos m3 * 2 ^ n2 < 2 ^ 54).
    { rewrite Z.pow_add_r in Hle, HMlt by lia.
      change (2 ^ 53) with 9007199254740992 in HMlt.
      change (2 ^ 54) with 18014398509481984. nia. }
    assert (Hn2' : n2 < 54).
    { destruct (Z.lt_ge_cases n2 54) as [|Hge]; [assumption|].
      assert (2 ^ 54 <= 2 ^ n2) by (apply Z.pow_le_mono_r; lia). nia. }
    assert (He3' : e3 = -1074 + n2) by lia.
    destruct e3 as [|p|p]; try lia.
    rewrite Z.shiftr_div_pow2 by lia.
    apply Z.div_small. split; [lia|].
    assert (2 ^ 54 <= 2 ^ Z.pos p) by (apply Z.pow_le_mono_r; lia).
    pose proof (Z.pow_pos_nonneg 2 n2 ltac:(lia) Hn2).
    nia.
Qed.

Lemma binary_round_aux_negative (M e z : Z) :
  int_of_float (binary_round_aux 53 1024 true M e loc_Exact) = Ok z -> z <= 0.
Proof.
  unfold binary_round_aux.
  destruct (shr_fexp 53 1024 M e loc_Exact) as [mrs' e'].
  destruct (shr_fexp 53 1024 _ e' loc_Exact) as [mrs'' e''].
  destruct (shr_m mrs'') as [|m|m]; cbn [int_of_float]; try discriminate.
  - intros H. injection H as <-. lia.
  - destruct (Z.leb e'' (1024 - 53)); cbn [int_of_float]; try discriminate.
    intros H. injection H as <-.
    destruct e'' as [|p|p].
    + rewrite Z.shiftl_0_r. lia.
    + pose proof (Z.shiftl_nonneg (Z.pos m) (Z.pos p)). lia.
    + pose proof (Z.shiftr_nonneg (Z.pos m) (Z.pos p)). lia.
Qed.

(** A size below the effective limit is at most the configured limit in
    bytes. *)
Lemma below_max_size (max_size_mb : spec_float) (max_size : Z) (n : nat) :
  max_size_of max_size_mb = Ok max_size ->
  Z.of_nat n < max_size ->
  (inject_Z (Z.of_nat n) <= limit_bytes max_size_mb)%Q.
Proof.
  unfold max_size_of, limit_bytes. intros H Hn.
  destruct (limit_float max_size_mb) as [s|s| |s mL eL].
  - cbn in H. injection H as <-. lia.
  - cbn in H. discriminate.
  - cbn in H. discriminate.
  - destruct s.
    + unfold fmul, f095 in H. cbn [SFmul xorb] in H.
      apply binary_round_aux_negative in H. lia.
    + destruct (fmul (S754_finite false mL eL) f095) as [s3|s3| |s3 m3 e3] eqn:E.
      * cbn in H. injection H as <-. lia.
      * cbn in H. discriminate.
      * cbn in H. discriminate.
      * destruct (fmul_095_le mL m3 eL e3 s3 E) as [-> [Hle|H0]].
        -- apply Qle_trans with (inject_Z max_size).
           ++ rewrite <- Zle_Qle. lia.
           ++ eapply Qle_trans; [apply int_of_float_le, H|exact Hle].
        -- rewrite H0 in H. injection H as <-. lia.
Qed.

(** ** The replicated calendar properties *)

Lemma props_create_lookup (cal : Component) (l : list Component) (attr : string) :
  props (create_calendar_with_events (cal_properties_of cal) l) !! attr
  = if bool_decide (attr ∈ calendar_attrs) then props cal !! attr else None.
Proof.
  rewrite props_create. unfold cal_properties_of, calendar_attrs.
  unfold create_calendar_with_events. simpl.
  case_bool_decide as Hin.
  - repeat (apply elem_of_cons in Hin as [->|Hin]);
      [| | | | apply elem_of_nil in Hin; contradiction];
      destruct (props cal !! "VERSION") eqn:E1;
      destruct (props cal !! "PRODID") eqn:E2;
      destruct (props cal !! "CALSCALE") eqn:E3;
      destruct (props cal !! "METHOD") eqn:E4; simpl;
      by simplify_map_eq.
  - assert (attr <> "VERSION" /\ attr <> "PRODID" /\ attr <> "CALSCALE"
            /\ attr <> "METHOD") as (N1 & N2 & N3 & N4).
    { repeat split; intros ->; apply Hin; set_solver. }
    destruct (props cal !! "VERSION");
      destruct (props cal !! "PRODID");
      destruct (props cal !! "CALSCALE");
      destruct (props cal !! "METHOD"); simpl;
      by simplify_map_eq.
Qed.

(** ** Runs that write files *)

Section SplitFacts.

Variable from_ical : string -> result Component.
Variable to_ical : Component -> string.
Variable component_eq : Component -> Component -> bool.
Variable write_error : string -> option exn.

Abbreviation split := (split_ics_file from_ical to_ical component_eq write_error).

(** A run either writes nothing, or went through the batching loop on
    the sorted events of a parsed calendar. *)
Lemma split_cases (fs : gmap string string) (input_file : string)
  (max_size_mb : spec_float) :
  run_written (split fs input_file max_size_mb) = []
  \/ exists max_size data cal events,
      max_size_of max_size_mb = Ok max_size
      /\ fs !! input_file = Some data
      /\ from_ical data = Ok cal
      /\ sort_events (vevents cal) = Ok events
      /\ run_written (split fs input_file max_size_mb)
         = written (run_loop to_ical component_eq write_error (cal_properties_of cal)
                      max_size (fst (splitext input_file)) events).
Proof.
  unfold split_ics_file.
  destruct (max_size_of max_size_mb) as [max_size|e] eqn:Emax; [|left; reflexivity].
  destruct (fs !! input_file) as [data|] eqn:Efs; [|left; reflexivity].
  destruct (from_ical data) as [cal|e] eqn:Ecal; [|left; reflexivity].
  destruct (vevents cal) as [|ev evs] eqn:Eev; [left; reflexivity|].
  destruct (sort_events (ev :: evs)) as [events|e] eqn:Esort; [|left; reflexivity].
  right. exists max_size, data, cal, events. rewrite Eev. auto.
Qed.

Lemma split_written_ok (fs : gmap string string) (input_file : string)
  (max_size_mb : spec_float) (max_size : Z) (data : string) (cal : Component) :
  max_size_of max_size_mb = Ok max_size ->
  fs !! input_file = Some data -> from_ical data = Ok cal ->
  written_ok to_ical (cal_properties_of cal) max_size
    (fst (splitext input_file)) (run_written (split fs input_file max_size_mb)).
Proof.
  intros Hmax Hfs Hcal.
  destruct (split_cases fs input_file max_size_mb)
    as [E|(max_size' & data' & cal' & events & Hmax' & Hfs' & Hcal' & _ & E)]; rewrite E.
  - intros k f Hk. discriminate.
  - rewrite Hmax in Hmax'. injection Hmax' as <-.
    rewrite Hfs in Hfs'. injection Hfs' as <-.
    rewrite Hcal in Hcal'. injection Hcal' as <-.
    apply run_loop_written_ok.
Qed.

Lemma split_written_nil_or_parsed (fs : gmap string string) (input_file : string)
  (max_size_mb : spec_float) (f : out_file) :
  f ∈ run_written (split fs input_file max_size_mb) ->
  exists max_size data cal,
    max_size_of max_size_mb = Ok max_size
    /\ fs !! input_file = Some data /\ from_ical data = Ok cal.
Proof.
  intros Hf.
  destruct (split_cases fs input_file max_size_mb)
    as [E|(max_size & data & cal & events & Hmax & Hfs & Hcal & _)].
  - rewrite E in Hf. apply elem_of_nil in Hf. contradiction.
  - exists max_size, data, cal. auto.
Qed.

End SplitFacts.

(** ** The date key *)

Lemma datetime_min_least (dt : datetime) :
  valid_datetime dt -> datetime_ltb dt datetime_min = false.
Proof.
  intros ((Hy & Hm & Hd) & (Hh & Hmi & Hs & Hus)).
  unfold datetime_ltb, datetime_compare, datetime_min, time_min. simpl.
  repeat match goal with
         | |- context [Z.compare ?a ?b] =>
             destruct (Z.compare_spec a b); simpl; try reflexivity; try lia
         end.
Qed.

(** C5. The sort key of an event is read from the first present of
    DTSTART, DTSTAMP and CREATED: a date gives that date at midnight, a
    date-time gives its wall-clock reading with the time zone dropped,
    and an event with none of the three gets [datetime.min], which no
    date-time precedes.  The key is a function of the event alone. *)
Theorem get_event_date_spec (event : Component) (dt : datetime) :
  valid_datetime dt ->
  match first_date_field event with
  | None => get_event_date event = Ok datetime_min
  | Some (vDDDTypes (DtDate d)) =>
      get_event_date event = Ok (mk_datetime d (mk_time 0 0 0 0) None)
  | Some (vDDDTypes (DtDatetime d)) =>
      get_event_date event = Ok (mk_datetime (dt_date d) (dt_time d) None)
  | Some (vDDDTypes (DtTimedelta _)) => get_event_date event = Raise TypeError
  | Some (vText _) => get_event_date event = Raise AttributeError
  end
  /\ datetime_ltb dt datetime_min = false.
Proof.
  intros Hdt. split.
  - unfold first_date_field, get_event_date, date_fields. simpl.
    destruct (props event !! "DTSTART") as [v|];
      [|destruct (props event !! "DTSTAMP") as [v|];
        [|destruct (props event !! "CREATED") as [v|]; [|reflexivity]]];
      (destruct v as [s|[d|d|s]]; simpl; try reflexivity;
       destruct d as [dd tt [z|]]; reflexivity).
  - apply datetime_min_least, Hdt.
Qed.

(** ** The order on date-times *)

Lemma order_like_Z {A : Type} (f : A -> Z) :
  order_like (fun a b => Z.compare (f a) (f b)).
Proof.
  split.
  - intros a b. apply Z.compare_antisym.
  - intros a b d E. apply Z.compare_eq in E. rewrite E. reflexivity.
  - intros a b d H1 H2. rewrite Z.compare_lt_iff in *. lia.
Qed.

Lemma order_like_lex {A : Type} (c1 c2 : A -> A -> comparison) :
  order_like c1 -> order_like c2 ->
  order_like (fun a b => lex (c1 a b) (c2 a b)).
Proof.
  intros [o1 e1 t1] [o2 e2 t2]. split.
  - intros a b. rewrite (o1 a b), (o2 a b).
    destruct (c1 b a), (c2 b a); reflexivity.
  - intros a b d E.
    destruct (c1 a b) eqn:E1; simpl in E; try discriminate.
    rewrite (e1 a b d E1), (e2 a b d E). reflexivity.
  - intros a b d H1 H2.
    destruct (c1 a b) eqn:E1; simpl in H1; try discriminate.
    + rewrite (e1 a b d E1).
      destruct (c1 b d) eqn:E2; simpl in *; try discriminate; [|reflexivity].
      eapply t2; eassumption.
    + destruct (c1 b d) eqn:E2; simpl in H2; try discriminate.
      * assert (E3 : c1 d b = Eq) by (rewrite o1, E2; reflexivity).
        pose proof (e1 d b a E3) as E4.
        rewrite (o1 d a), (o1 b a), E1 in E4. simpl in E4.
        destruct (c1 a d); simpl in *; try discriminate; reflexivity.
      * rewrite (t1 a b d E1 E2). reflexivity.
Qed.

Lemma datetime_compare_order : order_like datetime_compare.
Proof.
  unfold datetime_compare.
  repeat (apply (order_like_lex (fun a b => Z.compare _ _)); [apply (order_like_Z (fun a => _))|]).
  apply (order_like_Z (fun a => microsecond (dt_time a))).
Qed.

(** ** The sort is a stable sort *)

Lemma ltb_false_iff (a b : datetime) :
  datetime_ltb a b = false <-> datetime_compare a b <> Lt.
Proof.
  unfold datetime_ltb. destruct (datetime_compare a b); split; congruence.
Qed.

Lemma ltb_true_iff (a b : datetime) :
  datetime_ltb a b = true <-> datetime_compare a b = Lt.
Proof.
  unfold datetime_ltb. destruct (datetime_compare a b); split; congruence.
Qed.

Lemma compare_eq_r (a b d : datetime) :
  datetime_compare a b = Eq -> datetime_compare d a = datetime_compare d b.
Proof.
  destruct datetime_compare_order as [opp eql _]. intros E.
  rewrite (opp d a), (opp d b), (eql a b d E). reflexivity.
Qed.

Lemma compare_refl (a : datetime) : datetime_compare a a = Eq.
Proof.
  destruct datetime_compare_order as [opp _ _].
  pose proof (opp a a) as H.
  destruct (datetime_compare a a); simpl in H; congruence.
Qed.

Lemma key_le_trans (x y z : datetime * Component) :
  key_le x y -> key_le y z -> key_le x z.
Proof.
  destruct datetime_compare_order as [opp eql trans].
  unfold key_le. rewrite !ltb_false_iff. intros Hxy Hyz Hzx.
  destruct (datetime_compare (fst y) (fst x)) eqn:E.
  - apply Hyz. rewrite (compare_eq_r _ _ _ E). exact Hzx.
  - apply Hxy. reflexivity.
  - apply Hyz. apply (trans _ (fst x)); [exact Hzx|].
    rewrite opp, E. reflexivity.
Qed.

Lemma insert_keyed_perm (x : datetime * Component) (l : list (datetime * Component)) :
  Permutation (insert_keyed x l) (x :: l).
Proof.
  induction l as [|y l IH]; simpl; [reflexivity|].
  destruct (datetime_ltb (fst x) (fst y)); [reflexivity|].
  rewrite IH. apply perm_swap.
Qed.

Lemma insert_keyed_sorted (x : datetime * Component) (l : list (datetime * Component)) :
  StronglySorted key_le l -> StronglySorted key_le (insert_keyed x l).
Proof.
  induction 1 as [|y l Hl IH Hy]; simpl.
  - repeat constructor.
  - destruct (datetime_ltb (fst x) (fst y)) eqn:E.
    + constructor; [constructor; assumption|].
      assert (Hxy : key_le x y).
      { unfold key_le. apply ltb_false_iff. apply ltb_true_iff in E.
        destruct datetime_compare_order as [opp _ _]. rewrite opp, E. discriminate. }
      constructor; [exact Hxy|].
      eapply Forall_impl; [exact Hy|].
      intros z Hz. eapply key_le_trans; eassumption.
    + constructor; [exact IH|].
      eapply Permutation_Forall; [symmetry; apply insert_keyed_perm|].
      constructor; [exact E|exact Hy].
Qed.

(** Inserting [x] into a sorted list puts it behind the elements of its
    own key. *)
Lemma insert_keyed_filter (k : datetime) (x : datetime * Component)
  (l : list (datetime * Component)) :
  StronglySorted key_le l ->
  List.filter (same_key k) (insert_keyed x l)
  = List.filter (same_key k) l ++ (if same_key k x then [x] else []).
Proof.
  destruct datetime_compare_order as [opp eql trans].
  induction 1 as [|y l Hl IH Hy]; simpl.
  - destruct (same_key k x); reflexivity.
  - destruct (datetime_ltb (fst x) (fst y)) eqn:E.
    + simpl. destruct (same_key k x) eqn:Ex; [|rewrite app_nil_r; reflexivity].
      (* nothing from [y] on has the key of [x] *)
      assert (Hnone : Forall (fun z => same_key k z = false) (y :: l)).
      { assert (Hxk : datetime_compare (fst x) k = Eq).
        { unfold same_key in Ex. destruct (datetime_compare (fst x) k); congruence. }
        apply ltb_true_iff in E.
        assert (Hy' : Forall (key_le y) (y :: l)).
        { constructor; [|exact Hy]. unfold key_le. apply ltb_false_iff.
          rewrite compare_refl. discriminate. }
        eapply Forall_impl; [exact Hy'|].
        intros z Hz. unfold same_key.
        destruct (datetime_compare (fst z) k) eqn:Ez; try reflexivity.
        exfalso.
        (* z = k = x < y and y <= z *)
        unfold key_le in Hz. apply ltb_false_iff in Hz. apply Hz.
        assert (Ezx : datetime_compare (fst z) (fst x) = Eq).
        { rewrite (compare_eq_r _ _ _ Hxk). exact Ez. }
        rewrite (eql _ _ _ Ezx). exact E. }
      inversion Hnone as [|? ? Hy0 Hl0]; subst.
      rewrite Hy0.
      assert (El : List.filter (same_key k) l = []).
      { clear -Hl0. induction Hl0 as [|z l Hz _ IHl]; simpl; [reflexivity|].
        rewrite Hz. exact IHl. }
      rewrite El. reflexivity.
    + simpl. rewrite IH. destruct (same_key k y); reflexivity.
Qed.

Lemma sort_keyed_from (l acc : list (datetime * Component)) :
  StronglySorted key_le acc ->
  StronglySorted key_le (foldl (fun acc x => insert_keyed x acc) acc l)
  /\ Permutation (foldl (fun acc x => insert_keyed x acc) acc l) (acc ++ l)
  /\ forall k,
      List.filter (same_key k) (foldl (fun acc x => insert_keyed x acc) acc l)
      = List.filter (same_key k) acc ++ List.filter (same_key k) l.
Proof.
  revert acc. induction l as [|x l IH]; intros acc Hacc; simpl.
  - split; [exact Hacc|]. split; [rewrite app_nil_r; reflexivity|].
    intros k. rewrite app_nil_r. reflexivity.
  - destruct (IH (insert_keyed x acc) (insert_keyed_sorted x acc Hacc))
      as (Hs & Hp & Hf).
    split; [exact Hs|]. split.
    + rewrite Hp, insert_keyed_perm. simpl. apply Permutation_middle.
    + intros k. rewrite Hf, insert_keyed_filter by exact Hacc.
      rewrite <- app_assoc. destruct (same_key k x); reflexivity.
Qed.

(** The keys computed by the sort are those of the events, in order. *)
Lemma keys_of_zip (events : list Component) (keys : list datetime) :
  keys_of events = Ok keys ->
  Forall (fun p => get_event_date (snd p) = Ok (fst p)) (zip keys events)
  /\ map snd (zip keys events) = events.
Proof.
  revert keys. induction events as [|e events IH]; intros keys H; simpl in H.
  - injection H as <-. split; [constructor|reflexivity].
  - destruct (get_event_date e) as [k|] eqn:Ek; simpl in H; [|discriminate].
    destruct (keys_of events) as [ks|] eqn:Eks; simpl in H; [|discriminate].
    injection H as <-. destruct (IH ks eq_refl) as [HF Hm]. simpl.
    split; [constructor; [exact Ek|exact HF]|]. f_equal. exact Hm.
Qed.

Lemma filter_has_key (k : datetime) (l : list (datetime * Component)) :
  Forall (fun p => get_event_date (snd p) = Ok (fst p)) l ->
  List.filter (has_key k) (map snd l) = map snd (List.filter (same_key k) l).
Proof.
  induction 1 as [|[k' e] l Hp _ IH]; simpl; [reflexivity|].
  simpl in Hp. unfold has_key at 1. rewrite Hp.
  unfold same_key at 1 2. simpl.
  destruct (datetime_compare k' k); simpl; rewrite IH; reflexivity.
Qed.

(** [events.sort(key=get_event_date)], when no key raises, returns the
    events rearranged, in non-decreasing order of their keys, the events
    of each key in the order they had. *)
Lemma sort_events_stable (events sorted : list Component) :
  sort_events events = Ok sorted ->
  Permutation sorted events
  /\ StronglySorted
       (fun a b => forall ka kb, get_event_date a = Ok ka ->
                                 get_event_date b = Ok kb ->
                                 datetime_ltb kb ka = false) sorted
  /\ forall k, List.filter (has_key k) sorted = List.filter (has_key k) events.
Proof.
  unfold sort_events. intros H.
  destruct (keys_of events) as [keys|] eqn:Ekeys; simpl in H; [|discriminate].
  injection H as <-.
  destruct (keys_of_zip events keys Ekeys) as [Hk Hm].
  destruct (sort_keyed_from (zip keys events) [] (SSorted_nil _)) as (Hs & Hp & Hf).
  fold (sort_keyed (zip keys events)) in Hs, Hp, Hf. simpl in Hp, Hf.
  assert (Hk' : Forall (fun p => get_event_date (snd p) = Ok (fst p))
                  (sort_keyed (zip keys events))).
  { eapply Permutation_Forall; [symmetry; exact Hp|exact Hk]. }
  split; [|split].
  - rewrite <- Hm at 2. apply Permutation_map, Hp.
  - clear Hp Hf. induction Hs as [|p l Hl IH Hp]; simpl; [constructor|].
    inversion Hk' as [|? ? Hkp Hkl]; subst.
    constructor; [apply IH, Hkl|].
    apply Forall_map, Forall_forall. intros q Hin ka kb Ha Hb.
    rewrite Forall_forall in Hp, Hkl.
    specialize (Hp q Hin). specialize (Hkl q Hin). simpl in *.
    rewrite Hkp in Ha. rewrite Hkl in Hb.
    injection Ha as <-. injection Hb as <-. exact Hp.
  - intros k. rewrite filter_has_key by exact Hk'.
    rewrite Hf. rewrite <- filter_has_key by exact Hk.
    rewrite Hm. reflexivity.
Qed.

(** ** The claims about a run *)

Section Claims.

Variable from_ical : string -> result Component.
Variable to_ical : Component -> string.
Variable component_eq : Component -> Component -> bool.
Variable write_error : string -> option exn.

Abbreviation split_run := (split_ics_file from_ical to_ical component_eq write_error).

(** C2, as the code has it. Every file written by a run holds at most
    the configured number of bytes, unless it holds exactly one event and
    the one-event calendar of that event (the calendar lines, the
    replicated properties and the event), serialized, is already larger
    than the configured limit. *)
Theorem size_bound (fs : gmap string string) (input_file : string)
  (max_size_mb : spec_float) (data : string) (cal : Component) (f : out_file) :
  fs !! input_file = Some data ->
  from_ical data = Ok cal ->
  f ∈ run_written (split_run fs input_file max_size_mb) ->
  (inject_Z (file_size to_ical f) <= limit_bytes max_size_mb)%Q
  \/ exists e,
      out_events f = [e]
      /\ (limit_bytes max_size_mb
           < inject_Z (size_of to_ical (cal_properties_of cal) [e]))%Q.
Proof.
  intros Hfs Hcal Hf.
  destruct (split_written_nil_or_parsed from_ical to_ical component_eq write_error
              fs input_file max_size_mb f Hf)
    as (max_size & data' & cal' & Hmax & _).
  apply list_elem_of_lookup in Hf as [k Hk].
  destruct (split_written_ok from_ical to_ical component_eq write_error fs input_file
              max_size_mb max_size data cal Hmax Hfs Hcal k f Hk)
    as (_ & Hcalf & _ & [Hsmall|[e He]]).
  - left. unfold file_size. rewrite Hcalf.
    apply (below_max_size max_size_mb max_size); [exact Hmax|exact Hsmall].
  - destruct (Qlt_le_dec (limit_bytes max_size_mb) (inject_Z (file_size to_ical f)))
      as [Hlt|Hle]; [right|left; exact Hle].
    exists e. split; [exact He|].
    unfold size_of. rewrite <- He, <- Hcalf. exact Hlt.
Qed.

(** C10. Every file written by a run contains at least one event. *)
Theorem written_batch_nonempty (fs : gmap string string) (input_file : string)
  (max_size_mb : spec_float) (f : out_file) :
  f ∈ run_written (split_run fs input_file max_size_mb) ->
  out_events f <> [].
Proof.
  intros Hf.
  destruct (split_written_nil_or_parsed from_ical to_ical component_eq write_error
              fs input_file max_size_mb f Hf)
    as (max_size & data & cal & Hmax & Hfs & Hcal).
  apply list_elem_of_lookup in Hf as [k Hk].
  destruct (split_written_ok from_ical to_ical component_eq write_error fs input_file
              max_size_mb max_size data cal Hmax Hfs Hcal k f Hk) as (_ & _ & Hne & _).
  exact Hne.
Qed.

(** C6. In every file written by a run, the calendar carries, of the
    four properties VERSION, PRODID, CALSCALE and METHOD, exactly those
    the input calendar has, with the input's values, and no other
    property. *)
Theorem replicated_properties (fs : gmap string string) (input_file : string)
  (max_size_mb : spec_float) (data : string) (cal : Component) (f : out_file)
  (attr : string) :
  fs !! input_file = Some data ->
  from_ical data = Ok cal ->
  f ∈ run_written (split_run fs input_file max_size_mb) ->
  props (out_cal f) !! attr
  = if bool_decide (attr ∈ ["VERSION"; "PRODID"; "CALSCALE"; "METHOD"])
    then props cal !! attr else None.
Proof.
  intros Hfs Hcal Hf.
  destruct (split_written_nil_or_parsed from_ical to_ical component_eq write_error
              fs input_file max_size_mb f Hf)
    as (max_size & data' & cal' & Hmax & _).
  apply list_elem_of_lookup in Hf as [k Hk].
  destruct (split_written_ok from_ical to_ical component_eq write_error fs input_file
              max_size_mb max_size data cal Hmax Hfs Hcal k f Hk) as (_ & Hcalf & _).
  rewrite Hcalf. apply props_create_lookup.
Qed.

(** C3, as the code has it. The [k]-th file written by a run
    ([k] = 1, 2, ...) is named by the input path with only its extension
    removed (the directory stays), followed by [_part], the decimal
    counter [k] and the fixed extension [.ics]. *)
Theorem part_names (fs : gmap string string) (input_file : string)
  (max_size_mb : spec_float) (k : nat) (f : out_file) :
  run_written (split_run fs input_file max_size_mb) !! k = Some f ->
  out_path f
  = fst (splitext input_file) +:+ "_part" +:+ pretty (S k) +:+ ".ics".
Proof.
  intros Hk.
  assert (Hf : f ∈ run_written (split_run fs input_file max_size_mb)).
  { apply list_elem_of_lookup. eauto. }
  destruct (split_written_nil_or_parsed from_ical to_ical component_eq write_error
              fs input_file max_size_mb f Hf)
    as (max_size & data & cal & Hmax & Hfs & Hcal).
  destruct (split_written_ok from_ical to_ical component_eq write_error fs input_file
              max_size_mb max_size data cal Hmax Hfs Hcal k f Hk) as (Hpath & _).
  exact Hpath.
Qed.

(** C7, as the code has it. When the limit is one that line 48 accepts
    (the product is a finite number) and the parsed calendar has no
    VEVENT, the run writes no file, prints the no-events notice and
    returns normally; the file system is left as it was. *)
Theorem no_events_no_files (fs : gmap string string) (input_file : string)
  (max_size_mb : spec_float) (max_size : Z) (data : string) (cal : Component) :
  max_size_of max_size_mb = Ok max_size ->
  fs !! input_file = Some data ->
  from_ical data = Ok cal ->
  vevents cal = [] ->
  split_run fs input_file max_size_mb = mk_run [] [NoEventsFound] (Ok tt)
  /\ fs_after to_ical fs (split_run fs input_file max_size_mb) = fs.
Proof.
  intros Hmax Hfs Hcal Hev. unfold fs_after, split_ics_file.
  rewrite Hmax, Hfs, Hcal, Hev. split; reflexivity.
Qed.

(** C8, as the code has it. When the limit is one that line 48 accepts
    and the parser raises on the input's bytes, the run ends with that
    same exception, nothing is printed, no file is written, and the file
    system is left as it was. *)
Theorem parse_error_propagates (fs : gmap string string) (input_file : string)
  (max_size_mb : spec_float) (max_size : Z) (data : string) (e : exn) :
  max_size_of max_size_mb = Ok max_size ->
  fs !! input_file = Some data ->
  from_ical data = Raise e ->
  split_run fs input_file max_size_mb = mk_run [] [] (Raise e)
  /\ fs_after to_ical fs (split_run fs input_file max_size_mb) = fs.
Proof.
  intros Hmax Hfs Hcal. unfold fs_after, split_ics_file.
  rewrite Hmax, Hfs, Hcal. split; reflexivity.
Qed.

End Claims.

(** ** Runs on the example inputs *)

(** When two events that differ do not fit together, the second one is
    written nowhere: the batch is cut back to the first event, and the
    test of line 106 then sees a batch of length one. *)
Lemma pair_overflow_drops (to_ical : Component -> string)
  (component_eq : Component -> Component -> bool)
  (write_error : string -> option exn)
  (cal_properties : list (string * PropValue)) (max_size : Z)
  (base_name : string) (a b : Component) :
  component_eq a b = false ->
  write_error (part_name base_name 1) = None ->
  size_of to_ical cal_properties [a] < max_size ->
  max_size <= size_of to_ical cal_properties [a; b] ->
  let st := run_loop to_ical component_eq write_error cal_properties max_size
              base_name [a; b] in
  map out_events (written st) = [[a]] /\ raised st = None.
Proof.
  intros Hab Hw Ha Hb. unfold run_loop, size_of in *. cbn [foldl].
  apply Z.leb_gt in Ha. apply Z.leb_le in Hb.
  assert (E1 : step to_ical component_eq write_error cal_properties max_size base_name
                 [a; b] init a = mk_loop_state [a] 1 [] [] None).
  { unfold step, init, is_last. cbn [raised current_events app last].
    simpl last. rewrite Ha, Hab. reflexivity. }
  rewrite E1. unfold step. cbn [raised current_events app file_counter written stdout].
  rewrite Hb. cbn [orb andb length Nat.ltb Nat.leb removelast]. rewrite Hw.
  unfold flush. cbn [raised current_events written map].
  unfold out_events. cbn [out_cal]. rewrite subcomponents_create. split; reflexivity.
Qed.

(** C1. On a calendar of two events [a] and [b] that do not fit together
    under the limit, the run ends normally and writes one file holding
    [a]: the events of the output files are not the sorted events of the
    input, [b] is lost. *)
Theorem events_lost_on_overflow :
  let a := Example.event "a" in
  let b := Example.event "b" in
  let r := split_ics_file Ref.from_ical Ref.to_ical component_eqb Example.writable
             Example.fs "data/cal.txt" Example.mb_0_0001 in
  Example.fs !! "data/cal.txt" = Some Example.two_events
  /\ Ref.from_ical Example.two_events = Ok (Example.calendar [a; b])
  /\ sort_events (vevents (Example.calendar [a; b])) = Ok [a; b]
  /\ outcome r = Ok tt
  /\ concat (map out_events (run_written r)) = [a].
Proof. vm_compute. repeat split; reflexivity. Qed.

(** C4. On a calendar holding twice the same event, under a limit of
    1 MB, the first iteration writes a file although the measured size
    (82 bytes) is below the effective limit and the position is not the
    last one: the test [event == events[-1]] compares values. *)
Theorem write_before_last_on_duplicate :
  let a := Example.event "a" in
  let cal := Example.calendar [a; a] in
  let cal_properties := cal_properties_of cal in
  Ref.from_ical Example.duplicate = Ok cal
  /\ sort_events (vevents cal) = Ok [a; a]
  /\ size_of Ref.to_ical cal_properties [a] = 82
  /\ max_size_of Example.mb_1 = Ok 996147
  /\ (0 < length [a; a] - 1)%nat
  /\ writes_at Ref.to_ical component_eqb Example.writable cal_properties 996147
       "dup" [a; a] 0
  /\ map out_events
       (run_written (split_ics_file Ref.from_ical Ref.to_ical component_eqb
                       Example.writable Example.fs "dup.ics" Example.mb_1))
     = [[a]; [a]].
Proof. vm_compute. repeat split; try reflexivity; lia. Qed.

(** C3, as the specification words it, fails: the code keeps the
    directory of the input and always ends the name in [.ics]. *)
Lemma part_names_not_spec :
  ~ (forall (from_ical : string -> result Component) (to_ical : Component -> string)
       (component_eq : Component -> Component -> bool)
       (write_error : string -> option exn)
       (fs : gmap string string) (input_file : string) (max_size_mb : spec_float)
       (k : nat) (f : out_file),
       run_written (split_ics_file from_ical to_ical component_eq write_error
                      fs input_file max_size_mb) !! k
       = Some f ->
       out_path f = spec_part_name input_file (S k)).
Proof.
  intros H.
  specialize (H Ref.from_ical Ref.to_ical component_eqb Example.writable
                Example.fs "data/cal.txt" Example.mb_0_0001 0%nat Example.part1).
  vm_compute in H. specialize (H eq_refl). discriminate H.
Qed.

(** C2, as the specification words it, fails: the size that decides is
    that of the whole one-event file, not that of the event.  Under a
    limit of 0.00005 MB (52.4288 bytes) the file written for a calendar
    of one event holds 82 bytes, and the event alone serializes to 37
    bytes. *)
Lemma size_bound_not_spec :
  ~ (forall (from_ical : string -> result Component) (to_ical : Component -> string)
       (component_eq : Component -> Component -> bool)
       (write_error : string -> option exn)
       (fs : gmap string string) (input_file : string) (max_size_mb : spec_float)
       (f : out_file),
       f ∈ run_written (split_ics_file from_ical to_ical component_eq write_error
                          fs input_file max_size_mb) ->
       (inject_Z (file_size to_ical f) <= limit_bytes max_size_mb)%Q
       \/ exists e,
           out_events f = [e]
           /\ (limit_bytes max_size_mb
               < inject_Z (Z.of_nat (String.length (to_ical e))))%Q).
Proof.
  intros H.
  specialize (H Ref.from_ical Ref.to_ical component_eqb Example.writable
                Sample.fs "one.ics" Example.mb_0_00005 Sample.one_part).
  destruct H as [H|(e & He & H)].
  - vm_compute. apply list_elem_of_here.
  - vm_compute in H. apply H. reflexivity.
  - vm_compute in He. injection He as <-.
    vm_compute in H. discriminate H.
Qed.

(** C7, as the specification words it, fails: under the limit [inf] the
    run raises at line 48, before the input is read, whatever the input
    holds. *)
Lemma no_events_no_files_not_spec :
  ~ (forall (from_ical : string -> result Component) (to_ical : Component -> string)
       (component_eq : Component -> Component -> bool)
       (write_error : string -> option exn)
       (fs : gmap string string) (input_file : string) (max_size_mb : spec_float)
       (data : string) (cal : Component),
       fs !! input_file = Some data ->
       from_ical data = Ok cal ->
       vevents cal = [] ->
       split_ics_file from_ical to_ical component_eq write_error fs input_file
         max_size_mb
       = mk_run [] [NoEventsFound] (Ok tt)).
Proof.
  intros H.
  specialize (H Ref.from_ical Ref.to_ical component_eqb Example.writable
                Example.fs "empty.ics" (S754_infinity false)
                Example.empty_calendar (Example.calendar [])).
  vm_compute in H. specialize (H eq_refl eq_refl eq_refl). discriminate H.
Qed.

(** C8, as the specification words it, fails: under the limit [inf] the
    run on an input that does not parse ends with the [OverflowError] of
    line 48, not with the parser's exception. *)
Lemma parse_error_propagates_not_spec :
  ~ (forall (from_ical : string -> result Component) (to_ical : Component -> string)
       (component_eq : Component -> Component -> bool)
       (write_error : string -> option exn)
       (fs : gmap string string) (input_file : string) (max_size_mb : spec_float)
       (data : string) (e : exn),
       fs !! input_file = Some data ->
       from_ical data = Raise e ->
       outcome (split_ics_file from_ical to_ical component_eq write_error fs
                  input_file max_size_mb)
       = Raise e).
Proof.
  intros H.
  specialize (H Ref.from_ical Ref.to_ical component_eqb Example.writable
                Example.fs "broken.ics" (S754_infinity false)
                Example.broken ValueError).
  vm_compute in H. specialize (H eq_refl eq_refl). discriminate H.
Qed.

(** ** The theorems at the example inputs *)

(** The size bound at the file written for [data/cal.txt] under a limit
    of 0.0001 MB. *)
Lemma size_bound_witness :
  (inject_Z (file_size Ref.to_ical Example.part1) <= limit_bytes Example.mb_0_0001)%Q
  \/ exists e,
      out_events Example.part1 = [e]
      /\ (limit_bytes Example.mb_0_0001
          < inject_Z (size_of Ref.to_ical
                        (cal_properties_of
                           (Example.calendar [Example.event "a"; Example.event "b"]))
                        [e]))%Q.
Proof.
  apply (size_bound Ref.from_ical Ref.to_ical component_eqb Example.writable
           Example.fs "data/cal.txt" Example.mb_0_0001 Example.two_events
           (Example.calendar [Example.event "a"; Example.event "b"])).
  - reflexivity.
  - vm_compute. reflexivity.
  - vm_compute. apply list_elem_of_here.
Defined.

(** That file holds an event. *)
Lemma written_batch_nonempty_witness : out_events Example.part1 <> [].
Proof.
  apply (written_batch_nonempty Ref.from_ical Ref.to_ical component_eqb
           Example.writable Example.fs "data/cal.txt" Example.mb_0_0001).
  vm_compute. apply list_elem_of_here.
Defined.

(** It carries the VERSION of the input and no PRODID. *)
Lemma replicated_properties_witness :
  props (out_cal Example.part1) !! "VERSION" = Some (vText "2.0")
  /\ props (out_cal Example.part1) !! "PRODID" = None.
Proof.
  split.
  - apply (replicated_properties Ref.from_ical Ref.to_ical component_eqb
             Example.writable Example.fs "data/cal.txt"
             Example.mb_0_0001 Example.two_events
             (Example.calendar [Example.event "a"; Example.event "b"])
             Example.part1 "VERSION").
    + reflexivity.
    + vm_compute. reflexivity.
    + vm_compute. apply list_elem_of_here.
  - apply (replicated_properties Ref.from_ical Ref.to_ical component_eqb
             Example.writable Example.fs "data/cal.txt"
             Example.mb_0_0001 Example.two_events
             (Example.calendar [Example.event "a"; Example.event "b"])
             Example.part1 "PRODID").
    + reflexivity.
    + vm_compute. reflexivity.
    + vm_compute. apply list_elem_of_here.
Defined.

(** Its name keeps the directory of the input. *)
Lemma part_names_witness : out_path Example.part1 = "data/cal_part1.ics".
Proof.
  apply (part_names Ref.from_ical Ref.to_ical component_eqb Example.writable
           Example.fs "data/cal.txt" Example.mb_0_0001 0%nat Example.part1).
  vm_compute. reflexivity.
Defined.

(** A calendar without events. *)
Lemma no_events_no_files_witness :
  split_ics_file Ref.from_ical Ref.to_ical component_eqb Example.writable
    Example.fs "empty.ics" Example.mb_1
  = mk_run [] [NoEventsFound] (Ok tt)
  /\ fs_after Ref.to_ical Example.fs
       (split_ics_file Ref.from_ical Ref.to_ical component_eqb Example.writable
          Example.fs "empty.ics" Example.mb_1)
     = Example.fs.
Proof.
  apply (no_events_no_files Ref.from_ical Ref.to_ical component_eqb Example.writable
           Example.fs "empty.ics" Example.mb_1 996147
           Example.empty_calendar (Example.calendar [])).
  - vm_compute. reflexivity.
  - reflexivity.
  - vm_compute. reflexivity.
  - reflexivity.
Defined.

(** A calendar that is never closed. *)
Lemma parse_error_propagates_witness :
  split_ics_file Ref.from_ical Ref.to_ical component_eqb Example.writable
    Example.fs "broken.ics" Example.mb_1
  = mk_run [] [] (Raise ValueError)
  /\ fs_after Ref.to_ical Example.fs
       (split_ics_file Ref.from_ical Ref.to_ical component_eqb Example.writable
          Example.fs "broken.ics" Example.mb_1)
     = Example.fs.
Proof.
  apply (parse_error_propagates Ref.from_ical Ref.to_ical component_eqb
           Example.writable Example.fs "broken.ics" Example.mb_1 996147
           Example.broken ValueError).
  - vm_compute. reflexivity.
  - reflexivity.
  - vm_compute. reflexivity.
Defined.

(** An event with DTSTART and DTSTAMP: the start date wins. *)
Lemma get_event_date_spec_witness :
  valid_datetime Example.christmas
  /\ get_event_date Example.dated_event
     = Ok (mk_datetime (mk_date 2024 12 25) (mk_time 0 0 0 0) None)
  /\ datetime_ltb Example.christmas datetime_min = false.
Proof.
  assert (H : valid_datetime Example.christmas).
  { unfold valid_datetime, valid_date, valid_time. simpl. lia. }
  split; [exact H|].
  exact (get_event_date_spec Example.dated_event Example.christmas H).
Defined.

(** ** Component equality *)

(** A component equals itself. *)
Lemma component_eqb_refl (c : Component) : component_eqb c c = true.
Proof.
  induction c as [n p subs IH] using Component_nested_ind. simpl.
  rewrite !bool_decide_eq_true_2 by reflexivity. simpl.
  apply forallb_forall. intros x Hx. apply existsb_exists.
  exists x. split; [exact Hx|].
  rewrite Forall_forall in IH. apply IH. apply list_elem_of_In. exact Hx.
Qed.

(** ** The batches written are runs of the sorted events *)

Section TraceFacts.

Variable to_ical : Component -> string.
Variable component_eq : Component -> Component -> bool.
Variable write_error : string -> option exn.
Variable cal_properties : list (string * PropValue).
Variable max_size : Z.
Variable base_name : string.
Variable events : list Component.

Abbreviation traced_step :=
  (step to_ical component_eq write_error cal_properties max_size base_name events).
Abbreviation traced_flush := (flush to_ical write_error cal_properties base_name).
Abbreviation TraceInv := (trace_inv to_ical).

Lemma contiguous_in_snoc (batch l : list Component) (e : Component) :
  contiguous_in batch l -> contiguous_in batch (l ++ [e]).
Proof.
  intros (before & after & ->). exists before, (after ++ [e]).
  rewrite <- !app_assoc. reflexivity.
Qed.

Lemma concat_out_events_snoc (ws : list out_file) (f : out_file) :
  concat (map out_events (ws ++ [f])) = concat (map out_events ws) ++ out_events f.
Proof. rewrite map_app, concat_app. simpl. rewrite app_nil_r. reflexivity. Qed.

Lemma init_trace : TraceInv init [].
Proof.
  unfold trace_inv. simpl. repeat split; try constructor.
  exists []. reflexivity.
Qed.

Lemma out_events_create (path : string) (l : list Component) :
  out_events (mk_out_file path (create_calendar_with_events cal_properties l)) = l.
Proof. unfold out_events. simpl. apply subcomponents_create. Qed.

(** The invariant after a write of [batch] that leaves [open] behind. *)
Lemma trace_write (st : loop_state) (seen batch open : list Component)
  (counter : nat) (path : string) :
  Forall (fun f => contiguous_in (out_events f) seen) (written st) ->
  stdout st = map (report to_ical) (written st) ->
  sublist (concat (map out_events (written st)) ++ batch ++ open) seen ->
  contiguous_in batch seen ->
  (exists before, seen = before ++ open) ->
  TraceInv
    (mk_loop_state open counter
       (written st
        ++ [mk_out_file path (create_calendar_with_events cal_properties batch)])
       (stdout st
        ++ [Created path (length batch)
              (String.length
                 (to_ical (create_calendar_with_events cal_properties batch)))])
       None)
    seen.
Proof.
  intros Hcont Hout Hsub Hbatch Hopen. unfold trace_inv.
  cbn [written current_events stdout raised].
  rewrite concat_out_events_snoc, out_events_create.
  split; [|split; [|split]].
  - rewrite <- app_assoc. exact Hsub.
  - apply Forall_app. split; [exact Hcont|].
    constructor; [|constructor]. cbv beta. rewrite out_events_create. exact Hbatch.
  - intros _. exact Hopen.
  - rewrite map_app, Hout. cbn [map]. unfold report.
    rewrite out_events_create. reflexivity.
Qed.

(** The invariant after a write that raised. *)
Lemma trace_raise (st : loop_state) (seen open : list Component) (x : exn) :
  Forall (fun f => contiguous_in (out_events f) seen) (written st) ->
  stdout st = map (report to_ical) (written st) ->
  sublist (concat (map out_events (written st)) ++ open) seen ->
  TraceInv (mk_loop_state open (file_counter st) (written st) (stdout st) (Some x))
    seen.
Proof.
  intros Hcont Hout Hsub. unfold trace_inv. cbn [written current_events stdout raised].
  split; [exact Hsub|]. split; [exact Hcont|]. split; [discriminate|exact Hout].
Qed.

Lemma step_trace (st : loop_state) (seen : list Component) (event : Component) :
  TraceInv st seen -> TraceInv (traced_step st event) (seen ++ [event]).
Proof.
  intros (Hsub & Hcont & Hopen & Hout).
  assert (Hcont' : Forall (fun f => contiguous_in (out_events f) (seen ++ [event]))
                     (written st)).
  { eapply Forall_impl; [exact Hcont|]. intros f. apply contiguous_in_snoc. }
  unfold step. destruct (raised st) as [x|] eqn:Eraised.
  { split; [apply sublist_inserts_r; exact Hsub|].
    split; [exact Hcont'|]. split; [congruence|exact Hout]. }
  destruct (Hopen eq_refl) as (before & Hsuf).
  assert (Hcur : contiguous_in (current_events st) (seen ++ [event])).
  { exists before, [event]. rewrite Hsuf, <- app_assoc. reflexivity. }
  assert (Hcur' : contiguous_in (current_events st ++ [event]) (seen ++ [event])).
  { exists before, []. rewrite Hsuf, app_nil_r, <- app_assoc. reflexivity. }
  assert (Hall : sublist (concat (map out_events (written st))
                          ++ current_events st ++ [event]) (seen ++ [event])).
  { rewrite app_assoc. apply sublist_app; [exact Hsub|reflexivity]. }
  cbv zeta.
  set (current := current_events st ++ [event]).
  set (big := Z.leb max_size _).
  destruct (big || is_last component_eq events event) eqn:Ewrite.
  - destruct (big && Nat.ltb 1 (length current)) eqn:Epop.
    + (* the event is taken back before the write *)
      subst current. rewrite removelast_last.
      destruct (write_error (part_name base_name (file_counter st))) as [x|].
      * apply trace_raise; try assumption. apply sublist_inserts_r. exact Hsub.
      * apply trace_write; try assumption.
        -- destruct (big && Nat.ltb 1 (length (current_events st))); [exact Hall|].
           rewrite app_nil_r. apply sublist_inserts_r. exact Hsub.
        -- destruct (big && Nat.ltb 1 (length (current_events st))).
           ++ exists seen. reflexivity.
           ++ exists (seen ++ [event]). rewrite app_nil_r. reflexivity.
    + destruct (write_error (part_name base_name (file_counter st))) as [x|].
      * apply trace_raise; assumption.
      * rewrite Epop. apply trace_write; try assumption.
        -- rewrite app_nil_r. exact Hall.
        -- exists (seen ++ [event]). rewrite app_nil_r. reflexivity.
  - unfold trace_inv. simpl. split; [|split; [|split]].
    + exact Hall.
    + exact Hcont'.
    + intros _. exists before. subst current. rewrite Hsuf, <- app_assoc. reflexivity.
    + exact Hout.
Qed.

Lemma foldl_step_trace (l : list Component) (st : loop_state) (seen : list Component) :
  TraceInv st seen -> TraceInv (foldl traced_step st l) (seen ++ l).
Proof.
  revert st seen. induction l as [|e l IH]; intros st seen H; simpl.
  - rewrite app_nil_r. exact H.
  - replace (seen ++ e :: l) with ((seen ++ [e]) ++ l)
      by (rewrite <- app_assoc; reflexivity).
    apply IH, step_trace, H.
Qed.

Lemma flush_trace (st : loop_state) (seen : list Component) :
  TraceInv st seen ->
  sublist (concat (map out_events (written (traced_flush st)))) seen
  /\ Forall (fun f => contiguous_in (out_events f) seen) (written (traced_flush st))
  /\ stdout (traced_flush st) = map (report to_ical) (written (traced_flush st)).
Proof.
  intros (Hsub & Hcont & Hopen & Hout).
  assert (Hsub' : sublist (concat (map out_events (written st))) seen).
  { etransitivity; [|exact Hsub]. apply sublist_inserts_r. reflexivity. }
  unfold flush.
  destruct (raised st) as [x|]; [auto|].
  destruct (Hopen eq_refl) as (before & Hsuf).
  destruct (current_events st) as [|e l] eqn:E; [auto|].
  cbv zeta.
  destruct (write_error (part_name base_name (file_counter st))) as [x|]; [auto|].
  destruct (trace_write st seen (e :: l) [] (file_counter st)
              (part_name base_name (file_counter st)) Hcont Hout)
    as (H1 & H2 & _ & H4).
  + rewrite app_nil_r. exact Hsub.
  + exists before, []. rewrite app_nil_r. exact Hsuf.
  + exists seen. rewrite app_nil_r. reflexivity.
  + simpl in *. rewrite app_nil_r in H1. auto.
Qed.

Lemma run_loop_trace :
  let st := run_loop to_ical component_eq write_error cal_properties max_size
              base_name events in
  sublist (concat (map out_events (written st))) events
  /\ Forall (fun f => contiguous_in (out_events f) events) (written st)
  /\ stdout st = map (report to_ical) (written st).
Proof.
  apply flush_trace. apply (foldl_step_trace events init []), init_trace.
Qed.

End TraceFacts.

(** ** The end of the input *)

Section EndOfInput.

Variable to_ical : Component -> string.
Variable component_eq : Component -> Component -> bool.
Variable write_error : string -> option exn.
Variable cal_properties : list (string * PropValue).
Variable max_size : Z.
Variable base_name : string.
Variable events : list Component.

Abbreviation sized_step :=
  (step to_ical component_eq write_error cal_properties max_size base_name events).
Abbreviation sized_flush := (flush to_ical write_error cal_properties base_name).
Abbreviation sized_batch := (size_of to_ical cal_properties).

(** The test of line 91 holds at the last event, when this event equals
    itself. *)
Lemma is_last_last (before : list Component) (event : Component) :
  events = before ++ [event] -> component_eq event event = true ->
  is_last component_eq events event = true.
Proof.
  intros -> Hrefl. unfold is_last. rewrite last_snoc. exact Hrefl.
Qed.

(** Nothing runs after an exception. *)
Lemma foldl_step_raised (l : list Component) (st : loop_state) (x : exn) :
  raised st = Some x -> foldl sized_step st l = st.
Proof.
  intros Hx. induction l as [|e l IH]; simpl; [reflexivity|].
  unfold step at 2. rewrite Hx. exact IH.
Qed.

Lemma flush_raised (st : loop_state) (x : exn) :
  raised st = Some x -> sized_flush st = st.
Proof. intros Hx. unfold flush. rewrite Hx. reflexivity. Qed.

(** An iteration that starts with no exception pending, with the batch it
    writes, if it writes one. *)
Lemma step_unfold (st : loop_state) (event : Component) :
  raised st = None ->
  let current := current_events st ++ [event] in
  let big := Z.leb max_size (sized_batch current) in
  let batch := if big && Nat.ltb 1 (length current) then current_events st
               else current in
  let path := part_name base_name (file_counter st) in
  sized_step st event
  = if big || is_last component_eq events event then
      match write_error path with
      | None =>
          mk_loop_state
            (if big && Nat.ltb 1 (length batch) then [event] else [])
            (S (file_counter st))
            (written st
             ++ [mk_out_file path (create_calendar_with_events cal_properties batch)])
            (stdout st
             ++ [Created path (length batch)
                   (String.length
                      (to_ical (create_calendar_with_events cal_properties batch)))])
            None
      | Some x =>
          mk_loop_state batch (file_counter st) (written st) (stdout st) (Some x)
      end
    else mk_loop_state current (file_counter st) (written st) (stdout st) None.
Proof.
  intros Hnone. unfold step, size_of. rewrite Hnone. cbv zeta.
  destruct (_ || _); [|reflexivity].
  destruct (_ && _); [rewrite removelast_last|]; reflexivity.
Qed.

(** An iteration and the final flush only add to the files written. *)
Lemma step_written_app (st : loop_state) (event : Component) :
  exists fs, written (sized_step st event) = written st ++ fs.
Proof.
  destruct (raised st) as [x|] eqn:E.
  - exists []. unfold step. rewrite E, app_nil_r. reflexivity.
  - rewrite (step_unfold st event E). cbv zeta.
    destruct (_ || _); [|exists []; rewrite app_nil_r; reflexivity].
    destruct (write_error _); [exists []; rewrite app_nil_r; reflexivity|].
    eexists. reflexivity.
Qed.

Lemma foldl_step_written_app (l : list Component) (st : loop_state) :
  exists fs, written (foldl sized_step st l) = written st ++ fs.
Proof.
  revert st. induction l as [|e l IH]; intros st; simpl.
  - exists []. rewrite app_nil_r. reflexivity.
  - destruct (IH (sized_step st e)) as [fs1 E1].
    destruct (step_written_app st e) as [fs2 E2].
    exists (fs2 ++ fs1). rewrite E1, E2, app_assoc. reflexivity.
Qed.

Lemma flush_written_app (st : loop_state) :
  exists fs, written (sized_flush st) = written st ++ fs.
Proof.
  unfold flush. destruct (raised st); [exists []; rewrite app_nil_r; reflexivity|].
  destruct (current_events st); [exists []; rewrite app_nil_r; reflexivity|].
  destruct (write_error _); [exists []; rewrite app_nil_r; reflexivity|].
  simpl. eauto.
Qed.

(** An exception that left the loop was raised for the part that was to
    be written next. *)
Lemma step_raised_path (st : loop_state) (event : Component) :
  (forall x, raised st = Some x ->
             write_error (part_name base_name (file_counter st)) = Some x) ->
  forall x, raised (sized_step st event) = Some x ->
            write_error (part_name base_name (file_counter (sized_step st event)))
            = Some x.
Proof.
  intros Hst x. destruct (raised st) as [y|] eqn:E.
  - unfold step. rewrite E. intros Hx. apply Hst. congruence.
  - rewrite (step_unfold st event E). cbv zeta.
    destruct (_ || _); [|discriminate].
    destruct (write_error _) as [y|] eqn:Ey; [|discriminate].
    simpl. congruence.
Qed.

Lemma foldl_step_raised_path (l : list Component) (st : loop_state) :
  (forall x, raised st = Some x ->
             write_error (part_name base_name (file_counter st)) = Some x) ->
  forall x, raised (foldl sized_step st l) = Some x ->
            write_error (part_name base_name (file_counter (foldl sized_step st l)))
            = Some x.
Proof.
  revert st. induction l as [|e l IH]; intros st Hst; simpl; [exact Hst|].
  apply IH, step_raised_path, Hst.
Qed.

(** A run on events whose last one equals itself writes a file, when the
    first part can be written. *)
Lemma run_loop_writes :
  events <> [] ->
  (forall e, last events = Some e -> component_eq e e = true) ->
  write_error (part_name base_name 1) = None ->
  written (run_loop to_ical component_eq write_error cal_properties max_size
             base_name events) <> [].
Proof.
  intros Hne Hrefl Hw. destruct (exists_last Hne) as (before & event & E).
  assert (Hlast : is_last component_eq events event = true).
  { apply (is_last_last before); [exact E|]. apply Hrefl. rewrite E. apply last_snoc. }
  unfold run_loop. rewrite E at 2. rewrite foldl_app. simpl.
  set (st := foldl sized_step init before).
  destruct (flush_written_app (sized_step st event)) as [fs Hfs]. rewrite Hfs.
  assert (Hinv : loop_inv to_ical cal_properties max_size base_name st).
  { apply foldl_step_inv, init_inv. }
  destruct Hinv as (_ & Hcounter & _).
  assert (Hpath : forall x, raised st = Some x ->
            write_error (part_name base_name (file_counter st)) = Some x).
  { apply foldl_step_raised_path. discriminate. }
  destruct (written st) as [|f ws] eqn:Ews.
  - simpl in Hcounter. rewrite Hcounter in Hpath.
    destruct (raised st) as [x|] eqn:Eraised.
    { specialize (Hpath x eq_refl). congruence. }
    rewrite (step_unfold st event Eraised). cbv zeta.
    rewrite Hlast, orb_true_r, Hcounter, Hw. simpl. rewrite Ews. discriminate.
  - destruct (step_written_app st event) as [fs' Hfs']. rewrite Hfs', Ews. discriminate.
Qed.

(** While the batch stays below the limit and the event is not taken for
    the last one, the loop only grows the batch. *)
Lemma steps_accumulate (rest before : list Component) (last_event : Component) :
  (forall n, (0 < n <= length events)%nat -> sized_batch (take n events) < max_size) ->
  (forall i e, events !! i = Some e -> (S i < length events)%nat ->
               is_last component_eq events e = false) ->
  component_eq last_event last_event = true ->
  write_error (part_name base_name 1) = None ->
  events = before ++ rest ++ [last_event] ->
  foldl sized_step (mk_loop_state before 1 [] [] None) (rest ++ [last_event])
  = mk_loop_state [] 2
      [mk_out_file (part_name base_name 1)
         (create_calendar_with_events cal_properties events)]
      [Created (part_name base_name 1) (length events)
         (String.length
            (to_ical (create_calendar_with_events cal_properties events)))]
      None.
Proof.
  intros Hfit Hnot Hrefl Hw. revert before.
  induction rest as [|e rest IH]; intros before E; simpl.
  - simpl in E. rewrite step_unfold by reflexivity. cbv zeta. simpl. rewrite <- E.
    rewrite (is_last_last before last_event E Hrefl), orb_true_r.
    assert (Hsmall : Z.leb max_size (sized_batch events) = false).
    { apply Z.leb_gt. specialize (Hfit (length events)).
      rewrite firstn_all in Hfit. apply Hfit.
      rewrite E, length_app. simpl. lia. }
    rewrite Hsmall, Hw. reflexivity.
  - assert (Hstep : sized_step (mk_loop_state before 1 [] [] None) e
                    = mk_loop_state (before ++ [e]) 1 [] [] None).
    { rewrite step_unfold by reflexivity. cbv zeta. simpl.
      assert (Hsmall : Z.leb max_size (sized_batch (before ++ [e])) = false).
      { apply Z.leb_gt. specialize (Hfit (length (before ++ [e]))).
        rewrite E in Hfit at 2.
        replace (before ++ (e :: rest) ++ [last_event])
          with ((before ++ [e]) ++ rest ++ [last_event]) in Hfit
          by (rewrite <- app_assoc; reflexivity).
        rewrite take_app_length in Hfit. apply Hfit.
        rewrite E, !length_app. simpl. lia. }
      rewrite Hsmall. simpl.
      rewrite (Hnot (length before) e); [reflexivity| |].
      - rewrite E. rewrite lookup_app_r by lia. rewrite Nat.sub_diag. reflexivity.
      - rewrite E, !length_app. simpl. lia. }
    rewrite Hstep. apply IH. rewrite E, <- app_assoc. reflexivity.
Qed.

End EndOfInput.

(** ** Writes that raise *)

Section FailedWrites.

Variable to_ical : Component -> string.
Variable component_eq : Component -> Component -> bool.
Variable write_error : string -> option exn.
Variable cal_properties : list (string * PropValue).
Variable max_size : Z.
Variable base_name : string.
Variable events : list Component.

Abbreviation real_step :=
  (step to_ical component_eq write_error cal_properties max_size base_name events).
Abbreviation real_flush := (flush to_ical write_error cal_properties base_name).
Abbreviation free_step :=
  (step to_ical component_eq (fun _ => None) cal_properties max_size base_name events).
Abbreviation free_flush := (flush to_ical (fun _ => None) cal_properties base_name).
Abbreviation Writable := (Forall (fun f => write_error (out_path f) = None)).

(** An iteration does what it does when no write raises, or stops at the
    file that the failure-free iteration writes. *)
Lemma step_real_free (st : loop_state) (event : Component) :
  raised st = None ->
  raised (free_step st event) = None
  /\ ((exists w, real_step st event = free_step st event
                 /\ written (free_step st event) = written st ++ w
                 /\ Writable w)
      \/ (exists f x, written (free_step st event) = written st ++ [f]
                      /\ write_error (out_path f) = Some x
                      /\ raised (real_step st event) = Some x
                      /\ written (real_step st event) = written st)).
Proof.
  intros Hnone.
  rewrite (step_unfold to_ical component_eq write_error cal_properties max_size
             base_name events st event Hnone).
  rewrite (step_unfold to_ical component_eq (fun _ => None) cal_properties max_size
             base_name events st event Hnone).
  cbv zeta beta.
  destruct (_ || _).
  - split; [reflexivity|].
    destruct (write_error (part_name base_name (file_counter st))) as [x|] eqn:Ew.
    + right. eexists _, x. cbn [written raised out_path].
      split; [reflexivity|]. split; [exact Ew|]. split; reflexivity.
    + left. eexists [_]. cbn [written].
      split; [reflexivity|]. split; [reflexivity|].
      constructor; [exact Ew|constructor].
  - split; [reflexivity|]. left. exists []. cbn [written].
    split; [reflexivity|]. split; [rewrite app_nil_r; reflexivity|constructor].
Qed.

Lemma flush_real_free (st : loop_state) :
  raised st = None ->
  raised (free_flush st) = None
  /\ ((exists w, real_flush st = free_flush st
                 /\ written (free_flush st) = written st ++ w
                 /\ Writable w)
      \/ (exists f x, written (free_flush st) = written st ++ [f]
                      /\ write_error (out_path f) = Some x
                      /\ raised (real_flush st) = Some x
                      /\ written (real_flush st) = written st)).
Proof.
  intros Hnone. unfold flush. rewrite Hnone.
  destruct (current_events st) as [|e l].
  - split; [exact Hnone|]. left. exists [].
    split; [reflexivity|]. split; [rewrite app_nil_r; reflexivity|constructor].
  - cbv zeta beta. split; [reflexivity|].
    destruct (write_error (part_name base_name (file_counter st))) as [x|] eqn:Ew.
    + right. eexists _, x. cbn [written raised out_path].
      split; [reflexivity|]. split; [exact Ew|]. split; reflexivity.
    + left. eexists [_]. cbn [written].
      split; [reflexivity|]. split; [reflexivity|].
      constructor; [exact Ew|constructor].
Qed.

(** The files of a run are the first files of the failure-free run, up
    to the first one whose write raises. *)
Lemma loop_real_free (l : list Component) (st : loop_state) :
  raised st = None ->
  exists news_r news_i,
    written (real_flush (foldl real_step st l)) = written st ++ news_r
    /\ written (free_flush (foldl free_step st l)) = written st ++ news_i
    /\ news_r `prefix_of` news_i
    /\ Writable news_r
    /\ (raised (real_flush (foldl real_step st l)) = None ->
        real_flush (foldl real_step st l) = free_flush (foldl free_step st l))
    /\ (Writable news_i -> raised (real_flush (foldl real_step st l)) = None).
Proof.
  revert st. induction l as [|e l IH]; intros st Hnone; cbn [foldl].
  - destruct (flush_real_free st Hnone) as [Hfree [(w & E & Ew & Hw)|(f & x & Ef & Hx & Er & Ewr)]].
    + exists w, w. rewrite E. repeat split; try assumption; try reflexivity.
      intros _. exact Hfree.
    + exists [], [f]. rewrite app_nil_r.
      split; [exact Ewr|]. split; [exact Ef|]. split; [apply prefix_nil|].
      split; [constructor|]. split; [congruence|].
      intros Hall. inversion Hall as [|? ? Hf _]; subst. congruence.
  - destruct (step_real_free st e Hnone)
      as [Hfree [(w & E & Ew & Hw)|(f & x & Ef & Hx & Er & Ewr)]].
    + rewrite E.
      destruct (IH (free_step st e) Hfree) as (nr & ni & Hr & Hi & Hpre & Hwr & Heq & Hall).
      exists (w ++ nr), (w ++ ni). rewrite Hr, Hi, Ew, <- !app_assoc.
      split; [reflexivity|]. split; [reflexivity|].
      split; [apply prefix_app, Hpre|].
      split; [apply Forall_app; split; assumption|].
      split; [exact Heq|].
      intros H. apply Forall_app in H as [_ H]. apply Hall, H.
    + rewrite (foldl_step_raised to_ical component_eq write_error cal_properties
                 max_size base_name events l _ x Er).
      rewrite (flush_raised to_ical write_error cal_properties base_name _ x Er).
      destruct (foldl_step_written_app to_ical component_eq (fun _ => None)
                  cal_properties max_size base_name events l (free_step st e))
        as [fs1 E1].
      destruct (flush_written_app to_ical (fun _ => None) cal_properties base_name
                  (foldl free_step (free_step st e) l)) as [fs2 E2].
      exists [], (f :: fs1 ++ fs2). rewrite app_nil_r.
      split; [exact Ewr|].
      split; [rewrite E2, E1, Ef, <- !app_assoc; reflexivity|].
      split; [apply prefix_nil|]. split; [constructor|].
      split; [congruence|].
      intros Hall. inversion Hall as [|? ? Hf _]; subst. congruence.
Qed.

Lemma run_loop_real_free :
  let r := run_loop to_ical component_eq write_error cal_properties max_size
             base_name events in
  let i := run_loop to_ical component_eq (fun _ => None) cal_properties max_size
             base_name events in
  written r `prefix_of` written i
  /\ (raised r = None <-> Writable (written i))
  /\ (raised r = None -> r = i).
Proof.
  unfold run_loop.
  destruct (loop_real_free events init eq_refl)
    as (nr & ni & Hr & Hi & Hpre & Hwr & Heq & Hall).
  cbn [written init app] in Hr, Hi. cbv zeta. rewrite Hi.
  split; [rewrite Hr; exact Hpre|]. split; [|exact Heq].
  split; [|exact Hall].
  intros Hnone. rewrite <- Hi, <- (Heq Hnone), Hr. exact Hwr.
Qed.

End FailedWrites.

(** ** Strings and paths *)

Lemma append_nil_l (s : string) : "" +:+ s = s.
Proof. reflexivity. Qed.

Lemma append_cons (a : ascii) (s t : string) :
  String a s +:+ t = String a (s +:+ t).
Proof. reflexivity. Qed.

Lemma length_append (s t : string) :
  String.length (s +:+ t) = (String.length s + String.length t)%nat.
Proof.
  induction s as [|c s IH]; [reflexivity|].
  rewrite append_cons. simpl. rewrite IH. reflexivity.
Qed.

Lemma append_cancel_r (s s' t : string) : s +:+ t = s' +:+ t -> s = s'.
Proof.
  revert s'. induction s as [|c s IH]; intros [|c' s'] E.
  - reflexivity.
  - apply (f_equal String.length) in E. rewrite !length_append in E. simpl in E. lia.
  - apply (f_equal String.length) in E. rewrite !length_append in E. simpl in E. lia.
  - rewrite !append_cons in E. injection E as -> E. f_equal. apply IH, E.
Qed.

(** [rfind] returns [-1] or the position of an occurrence. *)
Lemma rfind_from_cases (c : ascii) (p : string) (i found : Z) :
  rfind_from c p i found = found
  \/ exists k, (k < String.length p)%nat
               /\ rfind_from c p i found = i + Z.of_nat k
               /\ String.get k p = Some c.
Proof.
  revert i found. induction p as [|a p IH]; intros i found; simpl; [left; reflexivity|].
  destruct (IH (i + 1) (if Ascii.eqb a c then i else found)) as [E|(k & Hk & E & Hget)].
  - rewrite E. destruct (Ascii.eqb_spec a c) as [->|]; [|left; reflexivity].
    right. exists 0%nat. repeat split; [lia|lia].
  - right. exists (S k). repeat split; [lia|lia|exact Hget].
Qed.

Lemma rfind_cases (c : ascii) (p : string) :
  rfind c p = -1
  \/ exists k, (k < String.length p)%nat
               /\ rfind c p = Z.of_nat k
               /\ String.get k p = Some c.
Proof.
  unfold rfind.
  destruct (rfind_from_cases c p 0 (-1)) as [E|(k & Hk & E & Hget)]; [left; exact E|].
  right. exists k. split; [exact Hk|]. split; [rewrite E; lia|exact Hget].
Qed.

Lemma substring_all (s : string) : substring 0 (String.length s) s = s.
Proof. induction s as [|a s IH]; simpl; [reflexivity|]. f_equal. exact IH. Qed.

Lemma substring_split (k : nat) (s : string) :
  (k <= String.length s)%nat ->
  substring 0 k s +:+ substring k (String.length s - k) s = s.
Proof.
  revert k. induction s as [|a s IH]; intros [|k] Hk; simpl in *; try lia.
  - reflexivity.
  - rewrite append_nil_l. f_equal. apply substring_all.
  - rewrite append_cons. f_equal. apply IH. lia.
Qed.

Lemma substring_from_get (k : nat) (s : string) (c : ascii) :
  String.get k s = Some c ->
  exists t, substring k (String.length s - k) s = String c t.
Proof.
  revert k. induction s as [|a s IH]; intros [|k] H; simpl in *; try discriminate.
  - injection H as ->. eauto.
  - apply IH, H.
Qed.

Lemma append_nil_r (s : string) : s +:+ "" = s.
Proof.
  induction s as [|a s IH]; [reflexivity|]. rewrite append_cons, IH. reflexivity.
Qed.

(** The two parts of [splitext] put together give the path back, and the
    extension is empty or begins with a dot. *)
Lemma splitext_parts (p : string) :
  fst (splitext p) +:+ snd (splitext p) = p
  /\ (snd (splitext p) = "" \/ exists t, snd (splitext p) = String "."%char t).
Proof.
  unfold splitext.
  destruct (Z.ltb_spec (rfind "/"%char p) (rfind "."%char p)) as [Hlt|Hge]; simpl;
    [|split; [|left; reflexivity]].
  - destruct (has_non_dot _); simpl; [|split; [|left; reflexivity]].
    + destruct (rfind_cases "/"%char p) as [Es|(ks & _ & Es & _)];
        destruct (rfind_cases "."%char p) as [Ed|(k & Hk & Ed & Hget)];
        rewrite Es, Ed in Hlt; try lia;
        rewrite Ed; unfold slice;
        replace (Z.to_nat 0) with 0%nat by lia;
        replace (Z.to_nat (Z.of_nat k - 0)) with k by lia;
        replace (Z.to_nat (Z.of_nat k)) with k by lia;
        replace (Z.to_nat (Z.of_nat (String.length p) - Z.of_nat k))
          with (String.length p - k)%nat by lia;
        (split; [apply substring_split; lia|right; eapply substring_from_get, Hget]).
    + apply append_nil_r.
  - apply append_nil_r.
Qed.

(** No part is named like the input. *)
Lemma part_name_not_input (input_file : string) (k : nat) :
  part_name (fst (splitext input_file)) k <> input_file.
Proof.
  destruct (splitext_parts input_file) as [E Hext]. intros H.
  rewrite <- E in H at 2. unfold part_name in H.
  apply (inj (String.app _)) in H.
  destruct Hext as [Hext|[t Hext]]; rewrite Hext in H; discriminate.
Qed.

(** Different counters give different names. *)
Lemma part_name_inj (base_name : string) (j k : nat) :
  part_name base_name j = part_name base_name k -> j = k.
Proof.
  unfold part_name. intros H.
  apply (inj (String.app _)) in H. apply (inj (String.app _)) in H.
  apply append_cancel_r in H. apply (inj pretty) in H. exact H.
Qed.

(** ** Keys that cannot be computed *)

Lemma name_add_components (c : Component) (l : list Component) :
  name (foldl (fun c e => add_component e c) c l) = name c.
Proof.
  revert c. induction l as [|e l IH]; intros c; simpl; [reflexivity|].
  rewrite IH. reflexivity.
Qed.

Lemma create_calendar_shape (cal_properties : list (string * PropValue))
  (event_list : list Component) :
  name (create_calendar_with_events cal_properties event_list) = "VCALENDAR"
  /\ subcomponents (create_calendar_with_events cal_properties event_list) = event_list
  /\ props (create_calendar_with_events cal_properties event_list)
     = props (create_calendar_with_events cal_properties []).
Proof.
  split; [|split].
  - unfold create_calendar_with_events. rewrite name_add_components, name_adds.
    reflexivity.
  - apply subcomponents_create.
  - apply props_create.
Qed.

Lemma date_of_field_naive (v : PropValue) (k : datetime) :
  date_of_field v = Ok k -> tzinfo k = None.
Proof.
  destruct v as [s|[d|d|s]]; simpl; try discriminate.
  - destruct d as [dd tt [z|]]; simpl; intros H; injection H as <-; reflexivity.
  - intros H. injection H as <-. reflexivity.
Qed.

(** X3. Every key [get_event_date] returns is naive: it carries no time
    zone, whichever field it was read from, so that any two keys can be
    compared. *)
Theorem get_event_date_naive (event : Component) (k : datetime) :
  get_event_date event = Ok k -> tzinfo k = None.
Proof.
  unfold get_event_date, date_fields. simpl.
  destruct (props event !! "DTSTART") as [v|]; [apply date_of_field_naive|].
  destruct (props event !! "DTSTAMP") as [v|]; [apply date_of_field_naive|].
  destruct (props event !! "CREATED") as [v|]; [apply date_of_field_naive|].
  intros H. injection H as <-. reflexivity.
Qed.

(** The sort ends with the exception of the first event, in list order,
    whose key raises. *)
Lemma keys_of_raises (before after : list Component) (e : Component) (x : exn) :
  Forall (fun a => exists k, get_event_date a = Ok k) before ->
  get_event_date e = Raise x ->
  keys_of (before ++ e :: after) = Raise x.
Proof.
  intros Hbefore He. induction Hbefore as [|a before [k Hk] _ IH]; simpl.
  - rewrite He. reflexivity.
  - rewrite Hk, IH. reflexivity.
Qed.

Lemma sort_events_length (events sorted : list Component) :
  sort_events events = Ok sorted -> length sorted = length events.
Proof.
  intros H. apply sort_events_stable in H as (Hp & _). apply Permutation_length, Hp.
Qed.

(** X1. [events.sort(key=get_event_date)], when no key raises, returns
    the same events rearranged, in non-decreasing order of their keys,
    and the events of each key keep the order they had: the sort is a
    stable sort. *)
Theorem sort_is_stable_sort (events sorted : list Component) :
  sort_events events = Ok sorted ->
  Permutation sorted events
  /\ StronglySorted
       (fun a b => forall ka kb, get_event_date a = Ok ka ->
                                 get_event_date b = Ok kb ->
                                 datetime_ltb kb ka = false) sorted
  /\ forall k, List.filter (has_key k) sorted = List.filter (has_key k) events.
Proof. apply sort_events_stable. Qed.

(** X14. [create_calendar_with_events] returns a VCALENDAR whose
    subcomponents are exactly the given events, in the given order, and
    whose properties do not depend on the events. *)
Theorem create_calendar_with_events_shape
  (cal_properties : list (string * PropValue)) (event_list : list Component) :
  name (create_calendar_with_events cal_properties event_list) = "VCALENDAR"
  /\ subcomponents (create_calendar_with_events cal_properties event_list) = event_list
  /\ props (create_calendar_with_events cal_properties event_list)
     = props (create_calendar_with_events cal_properties []).
Proof. apply create_calendar_shape. Qed.

(** ** Further properties of a run *)

Lemma keys_of_ok (events : list Component) :
  (forall e, e ∈ events -> exists k, get_event_date e = Ok k) ->
  exists keys, keys_of events = Ok keys.
Proof.
  induction events as [|a events IH]; intros H; simpl; [eauto|].
  destruct (H a) as [k Hk]; [left|]. rewrite Hk. simpl.
  destruct IH as [keys Hkeys]; [intros e He; apply H; right; exact He|].
  rewrite Hkeys. simpl. eauto.
Qed.

Lemma keys_of_ok_inv (events : list Component) (keys : list datetime) :
  keys_of events = Ok keys ->
  forall e, e ∈ events -> exists k, get_event_date e = Ok k.
Proof.
  revert keys. induction events as [|a events IH]; intros keys H e He.
  - apply elem_of_nil in He. contradiction.
  - simpl in H. destruct (get_event_date a) as [k|] eqn:Ea; simpl in H; [|discriminate].
    destruct (keys_of events) as [ks|] eqn:Eks; simpl in H; [|discriminate].
    apply elem_of_cons in He as [->|He]; [eauto|]. eapply IH; [reflexivity|exact He].
Qed.

Lemma sublist_StronglySorted {A : Type} (R : A -> A -> Prop) (l1 l2 : list A) :
  sublist l1 l2 -> StronglySorted R l2 -> StronglySorted R l1.
Proof.
  induction 1 as [|x l1 l2 Hsub IH|x l1 l2 Hsub IH]; intros Hs.
  - constructor.
  - inversion Hs as [|? ? Hl2 Hx]; subst. constructor; [apply IH, Hl2|].
    rewrite Forall_forall in Hx |- *. intros y Hy.
    apply Hx. apply (sublist_subseteq _ _ Hsub), Hy.
  - inversion Hs as [|? ? Hl2 Hx]; subst. apply IH, Hl2.
Qed.

Lemma length_concat_nonempty (ls : list (list Component)) :
  Forall (fun l => l <> []) ls -> (length ls <= length (concat ls))%nat.
Proof.
  induction 1 as [|l ls Hl _ IH]; simpl; [lia|].
  rewrite length_app. destruct l; [contradiction|]. simpl. lia.
Qed.

Section FileSystem.

Variable to_ical : Component -> string.

Abbreviation write_file :=
  (fun (fs : gmap string string) (f : out_file) =>
     <[out_path f := to_ical (out_cal f)]> fs).

Lemma writes_keep_others (ws : list out_file) (fs : gmap string string) (p : string) :
  p ∉ map out_path ws -> foldl write_file fs ws !! p = fs !! p.
Proof.
  revert fs. induction ws as [|f ws IH]; intros fs Hp; simpl; [reflexivity|].
  simpl in Hp. apply not_elem_of_cons in Hp as [Hne Hp].
  rewrite IH by exact Hp. apply lookup_insert_ne. congruence.
Qed.

Lemma writes_read_back (ws : list out_file) (fs : gmap string string) (f : out_file) :
  NoDup (map out_path ws) -> f ∈ ws ->
  foldl write_file fs ws !! out_path f = Some (to_ical (out_cal f)).
Proof.
  revert fs. induction ws as [|g ws IH]; intros fs Hnd Hf; simpl.
  - apply elem_of_nil in Hf. contradiction.
  - simpl in Hnd. apply NoDup_cons in Hnd as [Hg Hnd].
    apply elem_of_cons in Hf as [->|Hf].
    + rewrite writes_keep_others by exact Hg. apply lookup_insert_eq.
    + apply IH; assumption.
Qed.

End FileSystem.

Section RunFacts.

Variable from_ical : string -> result Component.
Variable to_ical : Component -> string.
Variable component_eq : Component -> Component -> bool.
Variable write_error : string -> option exn.

Abbreviation split_run := (split_ics_file from_ical to_ical component_eq write_error).
Abbreviation free_run := (split_ics_file from_ical to_ical component_eq (fun _ => None)).

(** A run under an accepted limit on a parsed calendar whose events could
    be sorted is the run of the loop on the sorted events. *)
Lemma split_run_loop (fs : gmap string string) (input_file : string)
  (max_size_mb : spec_float) (max_size : Z) (data : string) (cal : Component)
  (events : list Component) :
  max_size_of max_size_mb = Ok max_size ->
  fs !! input_file = Some data ->
  from_ical data = Ok cal ->
  sort_events (vevents cal) = Ok events ->
  run_written (split_run fs input_file max_size_mb)
  = written (run_loop to_ical component_eq write_error (cal_properties_of cal)
               max_size (fst (splitext input_file)) events)
  /\ (raised (run_loop to_ical component_eq write_error (cal_properties_of cal)
                max_size (fst (splitext input_file)) events) = None ->
      outcome (split_run fs input_file max_size_mb) = Ok tt).
Proof.
  intros Hmax Hfs Hcal Hsort. unfold split_ics_file. rewrite Hmax, Hfs, Hcal.
  destruct (vevents cal) as [|e l] eqn:Ev.
  - simpl in Hsort. injection Hsort as <-. split; reflexivity.
  - rewrite Hsort. cbn [run_written outcome]. split; [reflexivity|].
    intros ->. reflexivity.
Qed.

(** Every written file is the [k]-th part of the input's base name. *)
Lemma written_paths (fs : gmap string string) (input_file : string)
  (max_size_mb : spec_float) (k : nat) (f : out_file) :
  run_written (split_run fs input_file max_size_mb) !! k = Some f ->
  out_path f = part_name (fst (splitext input_file)) (S k).
Proof.
  intros Hk.
  assert (Hf : f ∈ run_written (split_run fs input_file max_size_mb)).
  { apply list_elem_of_lookup. eauto. }
  destruct (split_written_nil_or_parsed from_ical to_ical component_eq write_error
              fs input_file max_size_mb f Hf)
    as (max_size & data & cal & Hmax & Hfs & Hcal).
  destruct (split_written_ok from_ical to_ical component_eq write_error fs input_file
              max_size_mb max_size data cal Hmax Hfs Hcal k f Hk) as (Hpath & _).
  exact Hpath.
Qed.

Lemma events_subsequence (fs : gmap string string) (input_file : string)
  (max_size_mb : spec_float) (data : string) (cal : Component)
  (events : list Component) :
  fs !! input_file = Some data ->
  from_ical data = Ok cal ->
  sort_events (vevents cal) = Ok events ->
  sublist (concat (map out_events (run_written (split_run fs input_file max_size_mb))))
    events
  /\ Forall (fun f => contiguous_in (out_events f) events)
       (run_written (split_run fs input_file max_size_mb)).
Proof.
  intros Hfs Hcal Hsort.
  destruct (split_cases from_ical to_ical component_eq write_error fs input_file
              max_size_mb)
    as [E|(max_size & data' & cal' & events' & Hmax & Hfs' & Hcal' & Hsort' & E)];
    rewrite E.
  { split; [apply sublist_nil_l|constructor]. }
  rewrite Hfs in Hfs'. injection Hfs' as <-.
  rewrite Hcal in Hcal'. injection Hcal' as <-.
  rewrite Hsort in Hsort'. injection Hsort' as <-.
  destruct (run_loop_trace to_ical component_eq write_error (cal_properties_of cal)
              max_size (fst (splitext input_file)) events) as (H1 & H2 & _).
  split; assumption.
Qed.

Lemma paths_distinct (fs : gmap string string) (input_file : string)
  (max_size_mb : spec_float) :
  NoDup (map out_path (run_written (split_run fs input_file max_size_mb)))
  /\ input_file ∉ map out_path (run_written (split_run fs input_file max_size_mb)).
Proof.
  split.
  - apply NoDup_alt. intros i j p Hi Hj.
    rewrite list_lookup_fmap in Hi, Hj.
    destruct (run_written _ !! i) as [fi|] eqn:Ei; [|discriminate].
    destruct (run_written _ !! j) as [fj|] eqn:Ej; [|discriminate].
    simpl in Hi, Hj. injection Hi as Hi. injection Hj as Hj.
    rewrite (written_paths _ _ _ _ _ Ei) in Hi.
    rewrite (written_paths _ _ _ _ _ Ej) in Hj.
    rewrite <- Hj in Hi. apply part_name_inj in Hi. lia.
  - intros Hin. apply list_elem_of_fmap in Hin as (f & Hp & Hf).
    apply list_elem_of_lookup in Hf as [k Hk].
    rewrite (written_paths _ _ _ _ _ Hk) in Hp.
    symmetry in Hp. exact (part_name_not_input input_file (S k) Hp).
Qed.

(** A run writes the first files of the run in which no write raises, and
    all of them when it returns normally. *)
Lemma split_real_free (fs : gmap string string) (input_file : string)
  (max_size_mb : spec_float) :
  run_written (split_run fs input_file max_size_mb)
    `prefix_of` run_written (free_run fs input_file max_size_mb)
  /\ (outcome (split_run fs input_file max_size_mb) = Ok tt ->
      split_run fs input_file max_size_mb = free_run fs input_file max_size_mb).
Proof.
  unfold split_ics_file.
  destruct (max_size_of max_size_mb) as [max_size|]; [|split; reflexivity].
  destruct (fs !! input_file) as [data|]; [|split; reflexivity].
  destruct (from_ical data) as [cal|]; [|split; reflexivity].
  destruct (vevents cal) as [|ev evs]; [split; reflexivity|].
  destruct (sort_events (ev :: evs)) as [events|]; [|split; reflexivity].
  cbv zeta. cbn [run_written outcome].
  destruct (run_loop_real_free to_ical component_eq write_error (cal_properties_of cal)
              max_size (fst (splitext input_file)) events) as (Hpre & _ & Heq).
  split; [exact Hpre|].
  destruct (raised (run_loop to_ical component_eq write_error _ _ _ _)) as [x|] eqn:E;
    [discriminate|].
  intros _. rewrite (Heq eq_refl) in E |- *. rewrite E. reflexivity.
Qed.

(** X12. Every written calendar is a VCALENDAR whose subcomponents are
    VEVENT components found in the walk of the input calendar: no other
    kind of component is written at the top level of an output. *)
Theorem outputs_hold_input_vevents (fs : gmap string string) (input_file : string)
  (max_size_mb : spec_float) (data : string) (cal : Component) (f : out_file) :
  fs !! input_file = Some data ->
  from_ical data = Ok cal ->
  f ∈ run_written (split_run fs input_file max_size_mb) ->
  name (out_cal f) = "VCALENDAR"
  /\ forall e, e ∈ out_events f -> e ∈ walk cal /\ name e = "VEVENT".
Proof.
  intros Hfs Hcal Hf.
  destruct (split_cases from_ical to_ical component_eq write_error fs input_file
              max_size_mb)
    as [E|(max_size & data' & cal' & events & Hmax & Hfs' & Hcal' & Hsort & _)].
  { rewrite E in Hf. apply elem_of_nil in Hf. contradiction. }
  rewrite Hfs in Hfs'. injection Hfs' as <-.
  rewrite Hcal in Hcal'. injection Hcal' as <-.
  split.
  - apply list_elem_of_lookup in Hf as [k Hk].
    destruct (split_written_ok from_ical to_ical component_eq write_error fs input_file
                max_size_mb max_size data cal Hmax Hfs Hcal k f Hk) as (_ & Hcalf & _).
    rewrite Hcalf. apply create_calendar_shape.
  - intros e He.
    destruct (events_subsequence fs input_file max_size_mb data cal events
                Hfs Hcal Hsort) as [Hsub _].
    assert (Hin : e ∈ events).
    { apply (sublist_subseteq _ _ Hsub).
      apply list_elem_of_In, in_concat. exists (out_events f).
      split; [apply in_map|]; apply list_elem_of_In; assumption. }
    apply sort_events_stable in Hsort as (Hperm & _).
    rewrite Hperm in Hin. unfold vevents in Hin.
    apply list_elem_of_filter in Hin as [Hname Hwalk]. split; assumption.
Qed.

(** X7. A run on a calendar that has events, all with a key, writes at
    most as many files as there are events; and it writes at least one
    file when the limit is one that line 48 accepts, the last sorted event
    equals itself and the first part can be written. *)
Theorem file_count_bounds (fs : gmap string string) (input_file : string)
  (max_size_mb : spec_float) (data : string) (cal : Component)
  (events : list Component) :
  fs !! input_file = Some data ->
  from_ical data = Ok cal ->
  sort_events (vevents cal) = Ok events ->
  vevents cal <> [] ->
  (length (run_written (split_run fs input_file max_size_mb))
     <= length (vevents cal))%nat
  /\ (forall max_size,
        max_size_of max_size_mb = Ok max_size ->
        (forall e, last events = Some e -> component_eq e e = true) ->
        write_error (part_name (fst (splitext input_file)) 1) = None ->
        (1 <= length (run_written (split_run fs input_file max_size_mb)))%nat).
Proof.
  intros Hfs Hcal Hsort Hne.
  pose proof (sort_events_length _ _ Hsort) as Hlen.
  split.
  - destruct (events_subsequence fs input_file max_size_mb data cal events
                Hfs Hcal Hsort) as [Hsub _].
    apply sublist_length in Hsub. rewrite <- Hlen.
    etransitivity; [|exact Hsub].
    rewrite <- (length_map out_events).
    apply length_concat_nonempty. apply Forall_map, Forall_forall.
    intros f Hf.
    destruct (split_written_nil_or_parsed from_ical to_ical component_eq write_error
                fs input_file max_size_mb f Hf)
      as (max_size & data' & cal' & Hmax & _).
    apply list_elem_of_lookup in Hf as [k Hk].
    destruct (split_written_ok from_ical to_ical component_eq write_error fs input_file
                max_size_mb max_size data cal Hmax Hfs Hcal k f Hk)
      as (_ & _ & Hnonempty & _).
    exact Hnonempty.
  - intros max_size Hmax Hrefl Hw.
    destruct (split_run_loop fs input_file max_size_mb max_size data cal events
                Hmax Hfs Hcal Hsort) as [E _].
    rewrite E.
    assert (Hev : events <> []).
    { intros ->. destruct (vevents cal); [contradiction|discriminate]. }
    pose proof (run_loop_writes to_ical component_eq write_error (cal_properties_of cal)
                  max_size (fst (splitext input_file)) events Hev Hrefl Hw) as H.
    destruct (written _); [contradiction|simpl; lia].
Qed.

(** X2. When the limit is one that line 48 accepts, the input is read and
    parsed, and the key of some event cannot be computed, the run ends
    with the exception raised for the first such event in walk order;
    nothing is printed and no file is written. *)
Theorem bad_key_aborts (fs : gmap string string) (input_file : string)
  (max_size_mb : spec_float) (max_size : Z) (data : string) (cal : Component)
  (before after : list Component) (e : Component) (x : exn) :
  max_size_of max_size_mb = Ok max_size ->
  fs !! input_file = Some data ->
  from_ical data = Ok cal ->
  vevents cal = before ++ e :: after ->
  Forall (fun a => exists k, get_event_date a = Ok k) before ->
  get_event_date e = Raise x ->
  split_run fs input_file max_size_mb = mk_run [] [] (Raise x).
Proof.
  intros Hmax Hfs Hcal Hev Hbefore He.
  unfold split_ics_file. rewrite Hmax, Hfs, Hcal, Hev.
  destruct (before ++ e :: after) as [|a l] eqn:E.
  - destruct before; discriminate.
  - rewrite <- E. unfold sort_events.
    rewrite (keys_of_raises before after e x Hbefore He). reflexivity.
Qed.


(** X4. The events of the output files, taken in file order, are a
    subsequence of the sorted events: none is written twice, none is
    written out of order, none comes from elsewhere; and each file holds a
    run of consecutive sorted events. *)
Theorem output_events_subsequence (fs : gmap string string) (input_file : string)
  (max_size_mb : spec_float) (data : string) (cal : Component)
  (events : list Component) :
  fs !! input_file = Some data ->
  from_ical data = Ok cal ->
  sort_events (vevents cal) = Ok events ->
  sublist (concat (map out_events (run_written (split_run fs input_file max_size_mb))))
    events
  /\ Forall (fun f => contiguous_in (out_events f) events)
       (run_written (split_run fs input_file max_size_mb)).
Proof. apply events_subsequence. Qed.

(** X9. The files of a run have pairwise different paths, and none of
    them is the input path: no output replaces the input or an earlier
    output of the same run. *)
Theorem output_paths_distinct (fs : gmap string string) (input_file : string)
  (max_size_mb : spec_float) :
  NoDup (map out_path (run_written (split_run fs input_file max_size_mb)))
  /\ input_file ∉ map out_path (run_written (split_run fs input_file max_size_mb)).
Proof. apply paths_distinct. Qed.

(** X10. After a run, every file it wrote holds the serialization of its
    calendar. *)
Theorem written_files_read_back (fs : gmap string string) (input_file : string)
  (max_size_mb : spec_float) (f : out_file) :
  f ∈ run_written (split_run fs input_file max_size_mb) ->
  fs_after to_ical fs (split_run fs input_file max_size_mb) !! out_path f
  = Some (to_ical (out_cal f)).
Proof.
  intros Hf. unfold fs_after. apply writes_read_back; [|exact Hf].
  apply paths_distinct.
Qed.

(** X6. Under a limit that line 48 accepts, a calendar with a single
    event that equals itself, whatever its size, gives exactly one file,
    part 1, holding that event, when this part can be written. *)
Theorem single_event_one_file (fs : gmap string string) (input_file : string)
  (max_size_mb : spec_float) (max_size : Z) (data : string) (cal : Component)
  (e : Component) (k : datetime) :
  max_size_of max_size_mb = Ok max_size ->
  fs !! input_file = Some data ->
  from_ical data = Ok cal ->
  vevents cal = [e] ->
  get_event_date e = Ok k ->
  component_eq e e = true ->
  write_error (part_name (fst (splitext input_file)) 1) = None ->
  run_written (split_run fs input_file max_size_mb)
  = [mk_out_file (fst (splitext input_file) +:+ "_part1.ics")
       (create_calendar_with_events (cal_properties_of cal) [e])].
Proof.
  intros Hmax Hfs Hcal Hev Hk Hrefl Hw.
  assert (Hsort : sort_events (vevents cal) = Ok [e]).
  { rewrite Hev. unfold sort_events. simpl. rewrite Hk. reflexivity. }
  destruct (split_run_loop fs input_file max_size_mb max_size data cal [e]
              Hmax Hfs Hcal Hsort) as [E _].
  rewrite E. unfold run_loop. cbn [foldl].
  rewrite (step_unfold to_ical component_eq write_error (cal_properties_of cal) max_size
             (fst (splitext input_file)) [e] init e eq_refl).
  cbv zeta. cbn [init file_counter current_events app length written stdout].
  unfold is_last at 1.
  change (1 <? 1)%nat with false. rewrite !andb_false_r.
  change (last [e]) with (Some e). cbv iota.
  rewrite Hrefl, orb_true_r, Hw.
  unfold flush. cbn [raised current_events]. reflexivity.
Qed.

(** X5. Under a limit that line 48 accepts, when every non-empty prefix
    of the sorted events serializes below the effective limit, no event
    before the last one equals the last one, the last one equals itself
    and part 1 can be written, the run writes exactly one file, part 1,
    holding all the events in sorted order. *)
Theorem all_fit_one_file (fs : gmap string string) (input_file : string)
  (max_size_mb : spec_float) (max_size : Z) (data : string) (cal : Component)
  (events : list Component) :
  max_size_of max_size_mb = Ok max_size ->
  fs !! input_file = Some data ->
  from_ical data = Ok cal ->
  sort_events (vevents cal) = Ok events ->
  events <> [] ->
  (forall n, (0 < n <= length events)%nat ->
             size_of to_ical (cal_properties_of cal) (take n events) < max_size) ->
  (forall i e, events !! i = Some e -> (S i < length events)%nat ->
               is_last component_eq events e = false) ->
  (forall e, last events = Some e -> component_eq e e = true) ->
  write_error (part_name (fst (splitext input_file)) 1) = None ->
  run_written (split_run fs input_file max_size_mb)
  = [mk_out_file (fst (splitext input_file) +:+ "_part1.ics")
       (create_calendar_with_events (cal_properties_of cal) events)].
Proof.
  intros Hmax Hfs Hcal Hsort Hne Hfit Hnot Hrefl Hw.
  destruct (split_run_loop fs input_file max_size_mb max_size data cal events
              Hmax Hfs Hcal Hsort) as [E _].
  rewrite E.
  destruct (exists_last Hne) as (rest & last_event & El).
  assert (Hlast : component_eq last_event last_event = true).
  { apply Hrefl. rewrite El. apply last_snoc. }
  pose proof (steps_accumulate to_ical component_eq write_error (cal_properties_of cal)
                max_size (fst (splitext input_file)) events rest []
                last_event Hfit Hnot Hlast Hw El) as Hacc.
  rewrite <- El in Hacc. unfold run_loop, init. rewrite Hacc. reflexivity.
Qed.



(** X17. The events of the output files, taken in file order, are in
    non-decreasing order of their keys. *)
Theorem output_events_sorted (fs : gmap string string) (input_file : string)
  (max_size_mb : spec_float) (data : string) (cal : Component) :
  fs !! input_file = Some data ->
  from_ical data = Ok cal ->
  StronglySorted
    (fun a b => forall ka kb, get_event_date a = Ok ka ->
                              get_event_date b = Ok kb ->
                              datetime_ltb kb ka = false)
    (concat (map out_events (run_written (split_run fs input_file max_size_mb)))).
Proof.
  intros Hfs Hcal.
  destruct (split_cases from_ical to_ical component_eq write_error fs input_file
              max_size_mb)
    as [E|(max_size & data' & cal' & events & Hmax & Hfs' & Hcal' & Hsort & _)].
  { rewrite E. constructor. }
  rewrite Hfs in Hfs'. injection Hfs' as <-.
  rewrite Hcal in Hcal'. injection Hcal' as <-.
  destruct (events_subsequence fs input_file max_size_mb
              data cal events Hfs Hcal Hsort) as [Hsub _].
  apply sort_events_stable in Hsort as (_ & Hsorted & _).
  eapply sublist_StronglySorted; eassumption.
Qed.

(** X8. Under a limit that line 48 accepts, when the sorted events are
    two events of which the first does not equal the second, the first
    alone serializes below the effective limit, the two together do not,
    and part 1 can be written, the run returns normally and writes a
    single file holding the first event: the second event is written
    nowhere. *)
Theorem overflow_of_pair_loses_second (fs : gmap string string)
  (input_file : string) (max_size_mb : spec_float) (max_size : Z) (data : string)
  (cal : Component) (a b : Component) :
  max_size_of max_size_mb = Ok max_size ->
  fs !! input_file = Some data ->
  from_ical data = Ok cal ->
  sort_events (vevents cal) = Ok [a; b] ->
  component_eq a b = false ->
  write_error (part_name (fst (splitext input_file)) 1) = None ->
  size_of to_ical (cal_properties_of cal) [a] < max_size ->
  max_size <= size_of to_ical (cal_properties_of cal) [a; b] ->
  outcome (split_run fs input_file max_size_mb) = Ok tt
  /\ map out_events (run_written (split_run fs input_file max_size_mb)) = [[a]].
Proof.
  intros Hmax Hfs Hcal Hsort Hab Hw Ha Hb.
  destruct (split_run_loop fs input_file max_size_mb max_size data cal [a; b]
              Hmax Hfs Hcal Hsort) as [E Hout].
  destruct (pair_overflow_drops to_ical component_eq write_error (cal_properties_of cal)
              max_size (fst (splitext input_file)) a b Hab Hw Ha Hb) as [Hev Hnone].
  split; [apply Hout, Hnone|]. rewrite E. exact Hev.
Qed.

End RunFacts.

Section Independence.

Variable from_ical : string -> result Component.
Variable to_ical : Component -> string.
Variable component_eq : Component -> Component -> bool.

(** X18. Two runs on inputs with the same bytes and with the same limit
    that both return normally write the same files and print the same
    lines, whatever else the two file systems hold and whichever other
    paths they would have refused to write. *)
Theorem completed_runs_agree (fs1 fs2 : gmap string string)
  (write_error1 write_error2 : string -> option exn) (input_file : string)
  (max_size_mb : spec_float) :
  fs1 !! input_file = fs2 !! input_file ->
  outcome (split_ics_file from_ical to_ical component_eq write_error1 fs1 input_file
             max_size_mb) = Ok tt ->
  outcome (split_ics_file from_ical to_ical component_eq write_error2 fs2 input_file
             max_size_mb) = Ok tt ->
  split_ics_file from_ical to_ical component_eq write_error1 fs1 input_file max_size_mb
  = split_ics_file from_ical to_ical component_eq write_error2 fs2 input_file
      max_size_mb.
Proof.
  intros Hfs H1 H2.
  destruct (split_real_free from_ical to_ical component_eq write_error1 fs1 input_file
              max_size_mb) as [_ E1].
  destruct (split_real_free from_ical to_ical component_eq write_error2 fs2 input_file
              max_size_mb) as [_ E2].
  rewrite (E1 H1), (E2 H2). unfold split_ics_file. rewrite Hfs. reflexivity.
Qed.

End Independence.

(** ** The further properties at the example inputs *)

Lemma sort_is_stable_sort_witness :
  Permutation [Example.event "a"; Example.dated_event]
    [Example.dated_event; Example.event "a"]
  /\ StronglySorted
       (fun a b => forall ka kb, get_event_date a = Ok ka ->
                                 get_event_date b = Ok kb ->
                                 datetime_ltb kb ka = false)
       [Example.event "a"; Example.dated_event]
  /\ forall k, List.filter (has_key k) [Example.event "a"; Example.dated_event]
               = List.filter (has_key k) [Example.dated_event; Example.event "a"].
Proof.
  apply (sort_is_stable_sort [Example.dated_event; Example.event "a"]
           [Example.event "a"; Example.dated_event]).
  vm_compute. reflexivity.
Defined.

Lemma get_event_date_naive_witness :
  tzinfo (mk_datetime (mk_date 2024 12 25) (mk_time 0 0 0 0) None) = None.
Proof.
  apply (get_event_date_naive Example.dated_event).
  vm_compute. reflexivity.
Defined.

(** A calendar whose second event starts at a duration: the run ends with
    the [TypeError] of that event. *)
Lemma bad_key_aborts_witness :
  split_ics_file (Sample.read_as Sample.bad_calendar) Ref.to_ical component_eqb
    Example.writable Sample.fs "bad.ics" Example.mb_1
  = mk_run [] [] (Raise TypeError).
Proof.
  apply (bad_key_aborts (Sample.read_as Sample.bad_calendar) Ref.to_ical component_eqb
           Example.writable Sample.fs "bad.ics" Example.mb_1 996147 "DTSTART:PT1H"
           Sample.bad_calendar [Example.event "a"] [] Sample.bad_event TypeError).
  - vm_compute. reflexivity.
  - reflexivity.
  - reflexivity.
  - vm_compute. reflexivity.
  - constructor; [|constructor]. exists datetime_min. vm_compute. reflexivity.
  - vm_compute. reflexivity.
Defined.

Lemma output_events_subsequence_witness :
  sublist
    (concat (map out_events
       (run_written (split_ics_file Ref.from_ical Ref.to_ical component_eqb
                       Example.writable Example.fs "data/cal.txt" Example.mb_0_0001))))
    [Example.event "a"; Example.event "b"]
  /\ Forall (fun f => contiguous_in (out_events f)
                        [Example.event "a"; Example.event "b"])
       (run_written (split_ics_file Ref.from_ical Ref.to_ical component_eqb
                       Example.writable Example.fs "data/cal.txt" Example.mb_0_0001)).
Proof.
  apply (output_events_subsequence Ref.from_ical Ref.to_ical component_eqb
           Example.writable Example.fs "data/cal.txt"
           Example.mb_0_0001 Example.two_events
           (Example.calendar [Example.event "a"; Example.event "b"])).
  - reflexivity.
  - vm_compute. reflexivity.
  - vm_compute. reflexivity.
Defined.

Lemma outputs_hold_input_vevents_witness :
  name (out_cal Example.part1) = "VCALENDAR"
  /\ forall e, e ∈ out_events Example.part1 ->
               e ∈ walk (Example.calendar [Example.event "a"; Example.event "b"])
               /\ name e = "VEVENT".
Proof.
  apply (outputs_hold_input_vevents Ref.from_ical Ref.to_ical component_eqb
           Example.writable Example.fs "data/cal.txt"
           Example.mb_0_0001 Example.two_events).
  - reflexivity.
  - vm_compute. reflexivity.
  - vm_compute. apply list_elem_of_here.
Defined.

Lemma file_count_bounds_witness :
  (length (run_written (split_ics_file Ref.from_ical Ref.to_ical component_eqb
                          Example.writable Example.fs "data/cal.txt"
                          Example.mb_0_0001))
     <= length (vevents (Example.calendar [Example.event "a"; Example.event "b"])))%nat
  /\ (forall max_size,
        max_size_of Example.mb_0_0001 = Ok max_size ->
        (forall e, last [Example.event "a"; Example.event "b"] = Some e ->
                   component_eqb e e = true) ->
        Example.writable (part_name (fst (splitext "data/cal.txt")) 1) = None ->
        (1 <= length (run_written
                        (split_ics_file Ref.from_ical Ref.to_ical component_eqb
                           Example.writable Example.fs "data/cal.txt"
                           Example.mb_0_0001)))%nat).
Proof.
  apply (file_count_bounds Ref.from_ical Ref.to_ical component_eqb Example.writable
           Example.fs "data/cal.txt"
           Example.mb_0_0001 Example.two_events
           (Example.calendar [Example.event "a"; Example.event "b"])
           [Example.event "a"; Example.event "b"]).
  - reflexivity.
  - vm_compute. reflexivity.
  - vm_compute. reflexivity.
  - vm_compute. discriminate.
Defined.

Lemma overflow_of_pair_loses_second_witness :
  outcome (split_ics_file Ref.from_ical Ref.to_ical component_eqb Example.writable
             Example.fs "data/cal.txt" Example.mb_0_0001)
  = Ok tt
  /\ map out_events
       (run_written (split_ics_file Ref.from_ical Ref.to_ical component_eqb
                       Example.writable Example.fs "data/cal.txt" Example.mb_0_0001))
     = [[Example.event "a"]].
Proof.
  apply (overflow_of_pair_loses_second Ref.from_ical Ref.to_ical component_eqb
           Example.writable Example.fs
           "data/cal.txt" Example.mb_0_0001 99 Example.two_events
           (Example.calendar [Example.event "a"; Example.event "b"])
           (Example.event "a") (Example.event "b")).
  - vm_compute. reflexivity.
  - reflexivity.
  - vm_compute. reflexivity.
  - vm_compute. reflexivity.
  - vm_compute. reflexivity.
  - reflexivity.
  - vm_compute. reflexivity.
  - vm_compute. discriminate.
Defined.

Lemma written_files_read_back_witness :
  fs_after Ref.to_ical Example.fs
    (split_ics_file Ref.from_ical Ref.to_ical component_eqb Example.writable
       Example.fs "data/cal.txt" Example.mb_0_0001)
  !! "data/cal_part1.ics"
  = Some (Ref.to_ical (Example.calendar [Example.event "a"])).
Proof.
  apply (written_files_read_back Ref.from_ical Ref.to_ical component_eqb
           Example.writable Example.fs "data/cal.txt"
           Example.mb_0_0001 Example.part1).
  vm_compute. apply list_elem_of_here.
Defined.

Lemma single_event_one_file_witness :
  run_written (split_ics_file Ref.from_ical Ref.to_ical component_eqb Example.writable
                 Sample.fs "one.ics" Example.mb_0_00001)
  = [mk_out_file ("one" +:+ "_part1.ics")
       (create_calendar_with_events
          (cal_properties_of (Example.calendar [Example.event "a"]))
          [Example.event "a"])].
Proof.
  apply (single_event_one_file Ref.from_ical Ref.to_ical component_eqb
           Example.writable Sample.fs "one.ics" Example.mb_0_00001 9
           Sample.one_event (Example.calendar [Example.event "a"]) (Example.event "a")
           datetime_min).
  - vm_compute. reflexivity.
  - reflexivity.
  - vm_compute. reflexivity.
  - vm_compute. reflexivity.
  - vm_compute. reflexivity.
  - vm_compute. reflexivity.
  - reflexivity.
Defined.

Lemma all_fit_one_file_witness :
  run_written (split_ics_file Ref.from_ical Ref.to_ical component_eqb Example.writable
                 Example.fs "data/cal.txt" Example.mb_1)
  = [mk_out_file ("data/cal" +:+ "_part1.ics")
       (create_calendar_with_events
          (cal_properties_of (Example.calendar [Example.event "a"; Example.event "b"]))
          [Example.event "a"; Example.event "b"])].
Proof.
  apply (all_fit_one_file Ref.from_ical Ref.to_ical component_eqb Example.writable
           Example.fs "data/cal.txt" Example.mb_1 996147
           Example.two_events
           (Example.calendar [Example.event "a"; Example.event "b"])
           [Example.event "a"; Example.event "b"]).
  - vm_compute. reflexivity.
  - reflexivity.
  - vm_compute. reflexivity.
  - vm_compute. reflexivity.
  - discriminate.
  - intros n Hn. destruct n as [|[|[|n]]]; simpl in Hn; try lia; vm_compute; reflexivity.
  - intros i e Hi Hlt. destruct i as [|[|i]]; simpl in Hi, Hlt; try lia.
    injection Hi as <-. vm_compute. reflexivity.
  - intros e He. injection He as <-. vm_compute. reflexivity.
  - reflexivity.
Defined.



Lemma output_events_sorted_witness :
  StronglySorted
    (fun a b => forall ka kb, get_event_date a = Ok ka ->
                              get_event_date b = Ok kb ->
                              datetime_ltb kb ka = false)
    (concat (map out_events
       (run_written (split_ics_file Ref.from_ical Ref.to_ical component_eqb
                       Example.writable Example.fs "data/cal.txt" Example.mb_1)))).
Proof.
  apply (output_events_sorted Ref.from_ical Ref.to_ical component_eqb Example.writable
           Example.fs "data/cal.txt" Example.mb_1
           Example.two_events
           (Example.calendar [Example.event "a"; Example.event "b"])).
  - reflexivity.
  - vm_compute. reflexivity.
Defined.

(** [dup.ics] alone on a file system that lets every path be written, and
    next to another file on one that refuses [notes.txt]. *)
Lemma completed_runs_agree_witness :
  split_ics_file Ref.from_ical Ref.to_ical component_eqb Example.writable
    Example.fs "dup.ics" Example.mb_1
  = split_ics_file Ref.from_ical Ref.to_ical component_eqb Sample.notes_refused
      (<["notes.txt" := "x"]> Example.fs) "dup.ics" Example.mb_1.
Proof.
  apply (completed_runs_agree Ref.from_ical Ref.to_ical component_eqb
           Example.fs (<["notes.txt" := "x"]> Example.fs)
           Example.writable Sample.notes_refused "dup.ics" Example.mb_1).
  - vm_compute. reflexivity.
  - vm_compute. reflexivity.
  - vm_compute. reflexivity.
Defined.
